(** * Comment posting server: queue, worker and drain-now path

    A shallow embedding of [app.py]: the in-memory store (pending queue,
    bounded history, counters, currently-posting marker, session data and
    wait range), the executor [post_comment_to_reddit], the background
    worker loop, the lifecycle controller [_ensure_worker], the submission
    route [receive_comments], the drain-now route [keepalive] and
    [clear_queue].

    Python dictionaries with string keys are [gmap string _]; the module's
    globals are the fields of one [state] record that every function takes
    and returns; the outside world (random bytes, random floats, HTTP
    replies, the clock) is an [oracle] read through call counters kept in a
    [world], which also accumulates the trace of externally visible
    actions. Library calls whose result the program does not determine
    ([os.urandom] behind [uuid.uuid4], [random.uniform], [time.sleep],
    [requests.post], the clock) are answered by the oracle. *)

From Stdlib Require Import ZArith QArith Lqa Ascii String List Bool Lia.
From stdpp Require Import base option list strings pretty gmap.

Local Open Scope string_scope.
Local Open Scope list_scope.

(** ** Strings

    A Python [str] is modelled as a [string], one [ascii] per character. *)

Module PyStr.

(** [s[:n]] *)
Fixpoint take (n : nat) (s : string) : string :=
  match n, s with
  | S n', String c s' => String c (take n' s')
  | _, _ => EmptyString
  end.

(** [not s] for a string: only the empty string is falsy. *)
Definition falsy (s : string) : bool :=
  match s with EmptyString => true | _ => false end.

Definition of_list (l : list ascii) : string :=
  fold_right String EmptyString l.

Fixpoint to_list (s : string) : list ascii :=
  match s with
  | EmptyString => nil
  | String c s' => c :: to_list s'
  end.

(** Drop the leading occurrences of [ch] from a character list. *)
Fixpoint lstrip_chars (ch : ascii) (l : list ascii) : list ascii :=
  match l with
  | c :: l' => if Ascii.eqb c ch then lstrip_chars ch l' else l
  | nil => nil
  end.

(** [s.rstrip(ch)] for a one-character argument. *)
Definition rstrip (ch : ascii) (s : string) : string :=
  of_list (rev (lstrip_chars ch (rev (to_list s)))).

(** [s.split(ch)] for a one-character separator: the pieces between the
    separators, empty pieces included; the empty string splits to [[""]]. *)
Fixpoint split_acc (ch : ascii) (cur : string) (s : string) : list string :=
  match s with
  | EmptyString => [cur]
  | String c s' =>
      if Ascii.eqb c ch then cur :: split_acc ch EmptyString s'
      else split_acc ch (cur +:+ String c EmptyString) s'
  end.

Definition split (ch : ascii) (s : string) : list string :=
  split_acc ch EmptyString s.

Definition hex_digit (d : Z) : ascii :=
  nth (Z.to_nat d)
      ["0"; "1"; "2"; "3"; "4"; "5"; "6"; "7";
       "8"; "9"; "a"; "b"; "c"; "d"; "e"; "f"]%char "0"%char.

(** ['%0<width>x' % n]: [width] lower-case hexadecimal digits, most
    significant first. *)
Fixpoint hex_fixed (width : nat) (n : Z) : string :=
  match width with
  | O => EmptyString
  | S w' =>
      String (hex_digit (Z.land (Z.shiftr n (4 * Z.of_nat w')) 15))
             (hex_fixed w' n)
  end.

End PyStr.

(** ** UUIDs *)

Module Uuid.

(** [uuid.uuid4()] builds a UUID from sixteen random bytes and then forces
    the variant bits to [10] and the version nibble to [4]. The argument is
    the integer value of the sixteen bytes. *)
Definition uuid4 (rnd : Z) : Z :=
  let i := Z.land rnd (Z.ones 128) in
  let i := Z.land i (Z.lnot (Z.shiftl 0xc000 48)) in
  let i := Z.lor i (Z.shiftl 0x8000 48) in
  let i := Z.land i (Z.lnot (Z.shiftl 0xf000 64)) in
  Z.lor i (Z.shiftl 4 76).

(** [str(u)]: 32 hexadecimal digits grouped 8-4-4-4-12. *)
Definition str (u : Z) : string :=
  PyStr.hex_fixed 8 (Z.shiftr u 96) +:+ "-" +:+
  PyStr.hex_fixed 4 (Z.shiftr u 80) +:+ "-" +:+
  PyStr.hex_fixed 4 (Z.shiftr u 64) +:+ "-" +:+
  PyStr.hex_fixed 4 (Z.shiftr u 48) +:+ "-" +:+
  PyStr.hex_fixed 12 u.

(** The field spelled by the first eight digits: bits 96 to 127. *)
Definition time_low (u : Z) : Z :=
  Z.land (Z.shiftr u 96) (Z.ones 32).

End Uuid.

(** ** Data model *)

(** A task: the JSON object of one comment, fields [url], [ai_comment],
    [title], [subreddit] and, once enqueued, [id]; every field is a string,
    as in the documented request body. *)
Abbreviation comment := (gmap string string).
Abbreviation cookie_jar := (gmap string string).

(** [d.get(key, "")] *)
Definition get_str (d : gmap string string) (key : string) : string :=
  default "" (d !! key).

(** One entry of [posting_history]. *)
Record result := {
  r_id : string;
  r_subreddit : string;
  r_title : string;
  r_success : bool;
  r_posted_at : string;
}.

(** A wait is a JSON number, as Python holds it after parsing: an [int] or
    a finite [float], either way a rational, of either sign. The route
    stores it unchecked. *)
Definition whole_seconds (n : Z) : Q := n # 1.

(** The JSON object in the body of a POST to [/api/comments], with the
    documented types: a list of comments, a dictionary of cookies, a token
    string and two numbers. An absent key is [None]; [j_other_keys] tells
    whether the object has keys besides these five. *)
Record request_json := {
  j_comments : option (list comment);
  j_cookies : option cookie_jar;
  j_csrf_token : option string;
  j_min_wait : option Q;
  j_max_wait : option Q;
  j_other_keys : bool;
}.

(** A [Thread] object that has been started: it is alive, holding its local
    [is_first], until [_worker_loop] returns ([Finished]) or an exception
    leaves it ([Raised]). *)
Inductive thread :=
| Alive (is_first : bool)
| Finished
| Raised.

(** The module's globals. [threads] is the table of every thread started so
    far; [worker_thread] refers into it. *)
Record state := {
  comment_queue : list comment;
  threads : list thread;
  worker_thread : option nat;
  worker_running : bool;
  posting_history : list result;
  total_received : nat;
  total_success : nat;
  total_fail : nat;
  currently_posting : option comment;
  session_cookies : option cookie_jar;
  session_csrf_token : option string;
  wait_range : Q * Q;
}.

Definition MAX_HISTORY : nat := 500.
Arguments MAX_HISTORY : simpl never.

Definition initial_state : state := {|
  comment_queue := [];
  threads := [];
  worker_thread := None;
  worker_running := false;
  posting_history := [];
  total_received := 0;
  total_success := 0;
  total_fail := 0;
  currently_posting := None;
  session_cookies := None;
  session_csrf_token := None;
  wait_range := (whole_seconds 4, whole_seconds 6);
|}.

Definition set_comment_queue (q : list comment) (st : state) : state :=
  {| comment_queue := q; threads := threads st;
     worker_thread := worker_thread st; worker_running := worker_running st;
     posting_history := posting_history st;
     total_received := total_received st; total_success := total_success st;
     total_fail := total_fail st; currently_posting := currently_posting st;
     session_cookies := session_cookies st;
     session_csrf_token := session_csrf_token st;
     wait_range := wait_range st |}.

Definition set_threads (ts : list thread) (st : state) : state :=
  {| comment_queue := comment_queue st; threads := ts;
     worker_thread := worker_thread st; worker_running := worker_running st;
     posting_history := posting_history st;
     total_received := total_received st; total_success := total_success st;
     total_fail := total_fail st; currently_posting := currently_posting st;
     session_cookies := session_cookies st;
     session_csrf_token := session_csrf_token st;
     wait_range := wait_range st |}.

Definition set_worker (t : option nat) (running : bool) (st : state) : state :=
  {| comment_queue := comment_queue st; threads := threads st;
     worker_thread := t; worker_running := running;
     posting_history := posting_history st;
     total_received := total_received st; total_success := total_success st;
     total_fail := total_fail st; currently_posting := currently_posting st;
     session_cookies := session_cookies st;
     session_csrf_token := session_csrf_token st;
     wait_range := wait_range st |}.

Definition set_posting_history (h : list result) (st : state) : state :=
  {| comment_queue := comment_queue st; threads := threads st;
     worker_thread := worker_thread st; worker_running := worker_running st;
     posting_history := h;
     total_received := total_received st; total_success := total_success st;
     total_fail := total_fail st; currently_posting := currently_posting st;
     session_cookies := session_cookies st;
     session_csrf_token := session_csrf_token st;
     wait_range := wait_range st |}.

Definition set_counters (recv succ fail : nat) (st : state) : state :=
  {| comment_queue := comment_queue st; threads := threads st;
     worker_thread := worker_thread st; worker_running := worker_running st;
     posting_history := posting_history st;
     total_received := recv; total_success := succ; total_fail := fail;
     currently_posting := currently_posting st;
     session_cookies := session_cookies st;
     session_csrf_token := session_csrf_token st;
     wait_range := wait_range st |}.

Definition set_currently_posting (c : option comment) (st : state) : state :=
  {| comment_queue := comment_queue st; threads := threads st;
     worker_thread := worker_thread st; worker_running := worker_running st;
     posting_history := posting_history st;
     total_received := total_received st; total_success := total_success st;
     total_fail := total_fail st; currently_posting := c;
     session_cookies := session_cookies st;
     session_csrf_token := session_csrf_token st;
     wait_range := wait_range st |}.

Definition set_session (cookies : cookie_jar) (csrf : string)
    (wr : Q * Q)
    (st : state) : state :=
  {| comment_queue := comment_queue st; threads := threads st;
     worker_thread := worker_thread st; worker_running := worker_running st;
     posting_history := posting_history st;
     total_received := total_received st; total_success := total_success st;
     total_fail := total_fail st; currently_posting := currently_posting st;
     session_cookies := Some cookies;
     session_csrf_token := Some csrf;
     wait_range := wr |}.

(** ** The outside world *)

(** What the program reads from outside, indexed by the number of earlier
    reads of the same kind: the sixteen random bytes behind each
    [uuid.uuid4()], the float returned by each [random.uniform(a, b)], given
    [a] and [b], the status code of each HTTP reply ([None] when
    [requests.post] raises), and the ISO-8601 text of each
    [datetime.now(timezone.utc)]. [sleep_raises] tells on which durations
    [time.sleep] raises instead of sleeping: a [ValueError] on a negative
    one, an [OverflowError] on one beyond the range of the clock. *)
Record oracle := {
  os_urandom16 : nat -> Z;
  uniform_value : nat -> Q -> Q -> Q;
  sleep_raises : Q -> bool;
  http_reply : nat -> option Z;
  utc_now_iso : nat -> string;
}.

(** What the program does, in program order: [EvDequeue] marks a
    successful [popleft], [EvSleep] a [time.sleep] that returned,
    [EvSleepRaised] one that raised, [EvInvoke] a call of the executor,
    [EvHttpPost] a request sent. Log lines are left out. *)
Inductive event :=
| EvDequeue (c : comment)
| EvSleep (seconds : Q)
| EvSleepRaised (seconds : Q)
| EvInvoke (c : comment) (cookies : cookie_jar) (csrf_token : string)
| EvHttpPost (target : string) (referer : string) (cookies : cookie_jar)
    (csrf_token : string) (text : string).

Record world := {
  uuid_calls : nat;
  random_calls : nat;
  http_calls : nat;
  clock_calls : nat;
  trace : list event;
}.

Definition initial_world : world :=
  {| uuid_calls := 0; random_calls := 0; http_calls := 0; clock_calls := 0;
     trace := [] |}.

Definition emit (e : event) (w : world) : world :=
  {| uuid_calls := uuid_calls w; random_calls := random_calls w;
     http_calls := http_calls w; clock_calls := clock_calls w;
     trace := trace w ++ [e] |}.

(** ** The program *)

Section Program.

Variable env : oracle.

(** [datetime.now(timezone.utc).isoformat()] *)
Definition now_iso (w : world) : string * world :=
  (utc_now_iso env (clock_calls w),
   {| uuid_calls := uuid_calls w; random_calls := random_calls w;
      http_calls := http_calls w; clock_calls := S (clock_calls w);
      trace := trace w |}).

(** [random.uniform(a, b)] *)
Definition random_uniform (a b : Q) (w : world) : Q * world :=
  (uniform_value env (random_calls w) a b,
   {| uuid_calls := uuid_calls w; random_calls := S (random_calls w);
      http_calls := http_calls w; clock_calls := clock_calls w;
      trace := trace w |}).

(** [time.sleep(d)] for a duration that is not a literal: [false] when it
    raised. *)
Definition time_sleep (d : Q) (w : world) : bool * world :=
  if sleep_raises env d then (false, emit (EvSleepRaised d) w)
  else (true, emit (EvSleep d) w).

(** [str(uuid.uuid4())[:8]], the [k]-th time a UUID is drawn. *)
Definition comment_id_at (k : nat) : string :=
  PyStr.take 8 (Uuid.str (Uuid.uuid4 (os_urandom16 env k))).

Definition fresh_comment_id (w : world) : string * world :=
  (comment_id_at (uuid_calls w),
   {| uuid_calls := S (uuid_calls w); random_calls := random_calls w;
      http_calls := http_calls w; clock_calls := clock_calls w;
      trace := trace w |}).

(** [http_requests.post(...)]: the request goes out, then the reply (or the
    exception) comes back. *)
Definition http_post (target referer : string) (cookies : cookie_jar)
    (csrf_token text : string) (w : world) : option Z * world :=
  (http_reply env (http_calls w),
   {| uuid_calls := uuid_calls w; random_calls := random_calls w;
      http_calls := S (http_calls w); clock_calls := clock_calls w;
      trace := trace w ++ [EvHttpPost target referer cookies csrf_token text] |}).

(** *** Executor *)

(** The [for i, part in enumerate(parts)] search: the segment after the
    first ["comments"] segment that has a successor. *)
Fixpoint segment_after_comments (parts : list string) : option string :=
  match parts with
  | [] => None
  | part :: rest =>
      if String.eqb part "comments" then
        match rest with
        | next :: _ => Some next
        | [] => segment_after_comments rest
        end
      else segment_after_comments rest
  end.

(** [not post_id] when [post_id] is [None] or a string. *)
Definition no_post_id (p : option string) : bool :=
  match p with
  | None => true
  | Some s => PyStr.falsy s
  end.

(** [parts[-3] if len(parts) >= 3 else None] *)
Definition third_from_end (parts : list string) : option string :=
  if Nat.leb 3 (length parts) then parts !! (length parts - 3) else None.

Definition extract_post_id (post_url : string) : option string :=
  let parts := PyStr.split "/" (PyStr.rstrip "/" post_url) in
  let post_id := segment_after_comments parts in
  if no_post_id post_id then third_from_end parts else post_id.

Definition post_comment_to_reddit (c : comment) (cookies : cookie_jar)
    (csrf_token : string) (w : world) : bool * world :=
  let w := emit (EvInvoke c cookies csrf_token) w in
  let post_url := get_str c "url" in
  let ai_comment := get_str c "ai_comment" in
  if PyStr.falsy post_url || PyStr.falsy ai_comment then (false, w)
  else
    let post_id := extract_post_id post_url in
    if no_post_id post_id then (false, w)
    else
      let target :=
        "https://www.reddit.com/svc/shreddit/t3_" +:+ default "" post_id
          +:+ "/create-comment" in
      let '(reply, w) := http_post target post_url cookies csrf_token ai_comment w in
      match reply with
      | Some status_code => (Z.eqb status_code 200, w)
      | None => (false, w)
      end.

(** *** Store operations shared by the two consumers *)

(** [posting_history.append(result)] followed by the bound check. *)
Definition record_history (r : result) (h : list result) : list result :=
  let h := h ++ [r] in
  if Nat.ltb MAX_HISTORY (length h) then tail h else h.

(** The counter update under [stats_lock]. *)
Definition count_outcome (success : bool) (st : state) : state :=
  if success
  then set_counters (total_received st) (S (total_success st)) (total_fail st) st
  else set_counters (total_received st) (total_success st) (S (total_fail st)) st.

(** The result dictionary and its insertion under [history_lock]. *)
Definition make_result (c : comment) (success : bool) (posted_at : string) : result :=
  {| r_id := get_str c "id";
     r_subreddit := get_str c "subreddit";
     r_title := PyStr.take 100 (get_str c "title");
     r_success := success;
     r_posted_at := posted_at |}.

Definition record_result (c : comment) (success : bool) (st : state) (w : world)
    : state * world :=
  let '(posted_at, w) := now_iso w in
  (set_posting_history
     (record_history (make_result c success posted_at) (posting_history st)) st,
   w).

(** [not comment_queue] *)
Definition queue_is_empty (st : state) : bool :=
  match comment_queue st with
  | [] => true
  | _ :: _ => false
  end.

(** *** Background worker *)

(** How the loop of [_worker_loop] stands after a pass: it goes on with
    the next pass, it was left by [break], or an exception that nothing
    catches has left it. *)
Inductive loop_ctl :=
| Continue (is_first : bool)
| Break
| Raise.

(** What the loop body does with a comment it has dequeued: read the
    session under [session_lock], wait unless this is the first comment of
    the session, post, count, record. [time.sleep] stands outside any
    [try]: when it raises, the rest of the body is not run. *)
Definition worker_task (is_first : bool) (c : comment) (st : state) (w : world)
    : loop_ctl * state * world :=
  let cookies := default ∅ (session_cookies st) in
  let csrf_token := default "" (session_csrf_token st) in
  let min_w := fst (wait_range st) in
  let max_w := snd (wait_range st) in
  let '(slept, w) :=
    if is_first then (true, w)
    else let '(delay, w) := random_uniform min_w max_w w in
         time_sleep delay w in
  if slept then
    let st := set_currently_posting (Some c) st in
    let '(success, w) := post_comment_to_reddit c cookies csrf_token w in
    let st := set_currently_posting None st in
    let st := count_outcome success st in
    let '(st, w) := record_result c success st w in
    (Continue false, st, w)
  else (Raise, st, w).

(** One pass through the body of the loop of [_worker_loop]. The second
    look at the queue, after the one-second sleep, sees the queue as the
    first look left it: passes are not interrupted in this model. *)
Definition worker_iteration (is_first : bool) (st : state) (w : world)
    : loop_ctl * state * world :=
  match comment_queue st with
  | [] =>
      (* [time.sleep(1)] *)
      let w := emit (EvSleep 1) w in
      if queue_is_empty st && negb (worker_running st)
      then (Break, st, w)
      else (Continue is_first, st, w)
  | c :: rest =>
      let st := set_comment_queue rest st in
      let w := emit (EvDequeue c) w in
      worker_task is_first c st w
  end.

(** The loop of [_worker_loop], entered with the given [is_first], after
    [fuel] passes, or fewer when a pass has left it: where the loop stands,
    and the store and the world at that point. *)
Fixpoint worker_loop_from (fuel : nat) (is_first : bool) (st : state) (w : world)
    : loop_ctl * state * world :=
  match fuel with
  | O => (Continue is_first, st, w)
  | S fuel' =>
      match worker_iteration is_first st w with
      | (Continue is_first, st, w) => worker_loop_from fuel' is_first st w
      | gone => gone
      end
  end.

(** [_worker_loop]: [is_first = True], then the loop. *)
Definition _worker_loop (fuel : nat) (st : state) (w : world)
    : loop_ctl * state * world :=
  worker_loop_from fuel true st w.

(** *** Lifecycle controller *)

(** [t.is_alive()] *)
Definition is_alive (t : thread) : bool :=
  match t with
  | Alive _ => true
  | Finished | Raised => false
  end.

(** [worker_thread is not None and worker_thread.is_alive()] *)
Definition worker_alive (st : state) : bool :=
  match worker_thread st with
  | None => false
  | Some t =>
      match threads st !! t with
      | Some th => is_alive th
      | None => false
      end
  end.

(** The three statements after the early return: set the flag, create the
    thread, start it. The new thread begins with [is_first = True]. *)
Definition spawn_worker (st : state) : state :=
  set_worker (Some (length (threads st))) true
    (set_threads (threads st ++ [Alive true]) st).

Definition _ensure_worker (st : state) : state :=
  if worker_alive st then st else spawn_worker st.

(** Number of worker threads that are alive. *)
Definition live_workers (st : state) : nat :=
  length (List.filter is_alive (threads st)).

(** *** Submission *)

Inductive response :=
| BadRequest (error : string)
| Accepted (enqueued_ids : list string) (queue_size : nat).

(** An object without any key. *)
Definition no_keys (j : request_json) : bool :=
  match j_comments j, j_cookies j, j_csrf_token j, j_min_wait j, j_max_wait j with
  | None, None, None, None, None => negb (j_other_keys j)
  | _, _, _, _, _ => false
  end.

(** [not data]: [data] is [None] (the body was [null]) or an empty object. *)
Definition body_falsy (data : option request_json) : bool :=
  match data with
  | None => true
  | Some j => no_keys j
  end.

(** The loop under [queue_lock]: each comment gets its identifier written
    into its [id] field, is appended to the queue, and the identifier is
    appended to [enqueued_ids]. *)
Fixpoint enqueue_all (comments : list comment) (st : state) (w : world)
    : list string * state * world :=
  match comments with
  | [] => ([], st, w)
  | c :: cs =>
      let '(comment_id, w) := fresh_comment_id w in
      let c := <["id" := comment_id]> c in
      let st := set_comment_queue (comment_queue st ++ [c]) st in
      let '(ids, st, w) := enqueue_all cs st w in
      (comment_id :: ids, st, w)
  end.

Definition receive_comments (data : option request_json) (st : state) (w : world)
    : response * state * world :=
  if body_falsy data then (BadRequest "No JSON body provided", st, w)
  else
    let comments := default [] (data ≫= j_comments) in
    if bool_decide (comments = []) then (BadRequest "No comments provided", st, w)
    else
      let cookies := default ∅ (data ≫= j_cookies) in
      let csrf_token := default "" (data ≫= j_csrf_token) in
      if bool_decide (cookies = ∅) || PyStr.falsy csrf_token
      then (BadRequest "Missing cookies or csrf_token", st, w)
      else
        let min_w := default (whole_seconds 4) (data ≫= j_min_wait) in
        let max_w := default (whole_seconds 6) (data ≫= j_max_wait) in
        let st := set_session cookies csrf_token (min_w, max_w) st in
        let '(enqueued_ids, st, w) := enqueue_all comments st w in
        let st :=
          set_counters (total_received st + length comments)
            (total_success st) (total_fail st) st in
        let st := _ensure_worker st in
        (Accepted enqueued_ids (length (comment_queue st)), st, w).

(** *** Drain-now *)

Record keepalive_report := {
  k_posted : nat;
  k_failed : nat;
  k_time : string;
}.

(** The [for attempt in range(1, 4)] loop; [success] starts as [False]. *)
Fixpoint keepalive_attempts (attempts : list nat) (c : comment)
    (cookies : cookie_jar) (csrf_token : string) (w : world) : bool * world :=
  match attempts with
  | [] => (false, w)
  | _ :: later =>
      let '(success, w) := post_comment_to_reddit c cookies csrf_token w in
      if success then (true, w)
      else
        (* [time.sleep(2)] *)
        let w := emit (EvSleep (2 # 1)) w in
        keepalive_attempts later c cookies csrf_token w
  end.

(** What the loop body of [keepalive] does with a comment it has dequeued. *)
Definition keepalive_task (c : comment) (posted failed : nat)
    (cookies : cookie_jar) (csrf_token : string) (st : state) (w : world)
    : nat * nat * state * world :=
  let st := set_currently_posting (Some c) st in
  let '(success, w) := keepalive_attempts (seq 1 3) c cookies csrf_token w in
  let st := set_currently_posting None st in
  let st := count_outcome success st in
  let posted := if success then S posted else posted in
  let failed := if success then failed else S failed in
  let '(st, w) := record_result c success st w in
  (* [time.sleep(random.uniform(2, 4))]: a duration between 2 and 4 *)
  let w :=
    if queue_is_empty st then w
    else let '(delay, w) := random_uniform (2 # 1) (4 # 1) w in
         emit (EvSleep delay) w in
  (posted, failed, st, w).

(** The [while True] loop of [keepalive]; [None] when [fuel] passes did not
    reach the [break]. *)
Fixpoint keepalive_loop (fuel : nat) (posted failed : nat) (cookies : cookie_jar)
    (csrf_token : string) (st : state) (w : world)
    : option (nat * nat * state * world) :=
  match fuel with
  | O => None
  | S fuel' =>
      match comment_queue st with
      | [] => Some (posted, failed, st, w)
      | c :: rest =>
          let st := set_comment_queue rest st in
          let w := emit (EvDequeue c) w in
          let '(posted, failed, st, w) :=
            keepalive_task c posted failed cookies csrf_token st w in
          keepalive_loop fuel' posted failed cookies csrf_token st w
      end
  end.

(** [keepalive], run with one pass more than there are pending comments. *)
Definition keepalive (st : state) (w : world)
    : option (keepalive_report * state * world) :=
  let cookies := default ∅ (session_cookies st) in
  let csrf_token := default "" (session_csrf_token st) in
  match keepalive_loop (S (length (comment_queue st))) 0 0 cookies csrf_token st w with
  | Some (posted, failed, st, w) =>
      let '(time, w) := now_iso w in
      Some ({| k_posted := posted; k_failed := failed; k_time := time |}, st, w)
  | None => None
  end.

(** *** Clear *)

Definition clear_queue (st : state) : nat * state :=
  (length (comment_queue st), set_comment_queue [] st).

(** ** Runs of the whole server

    A run is a sequence of operations, each executed without interruption:
    a submission, one pass of the loop of a worker thread, a drain-now call,
    a clear. *)

Inductive op :=
| OpSubmit (data : option request_json)
| OpWorker (t : nat)
| OpKeepalive
| OpClear.

(** What has become of a thread whose loop stands at [ctl]. *)
Definition thread_after (ctl : loop_ctl) : thread :=
  match ctl with
  | Continue is_first => Alive is_first
  | Break => Finished
  | Raise => Raised
  end.

(** Thread [t] makes one pass through its loop, or does nothing when it was
    never started or is no longer alive. *)
Definition worker_pass (t : nat) (st : state) (w : world) : state * world :=
  match threads st !! t with
  | Some (Alive is_first) =>
      let '(ctl, st, w) := worker_loop_from 1 is_first st w in
      (set_threads (<[t := thread_after ctl]> (threads st)) st, w)
  | _ => (st, w)
  end.

(** One operation. The drain-now call always returns ([keepalive_total]
    below), so its [None] branch is never taken. *)
Definition step (o : op) (sw : state * world) : state * world :=
  let '(st, w) := sw in
  match o with
  | OpSubmit data =>
      let '(_, st, w) := receive_comments data st w in (st, w)
  | OpWorker t => worker_pass t st w
  | OpKeepalive =>
      match keepalive st w with
      | Some (_, st, w) => (st, w)
      | None => (st, w)
      end
  | OpClear => (snd (clear_queue st), w)
  end.

Definition run (ops : list op) (sw : state * world) : state * world :=
  fold_left (fun sw o => step o sw) ops sw.

End Program.

(** ** Concurrent callers of [_ensure_worker]

    [_ensure_worker] takes no lock: between the liveness test and the three
    statements that start the thread, another caller may run. A caller is
    therefore at one of three points. *)

Inductive caller_pc :=
| AtCheck
| AtSpawn
| Returned.

Definition ensure_step (pc : caller_pc) (st : state) : caller_pc * state :=
  match pc with
  | AtCheck => if worker_alive st then (Returned, st) else (AtSpawn, st)
  | AtSpawn => (Returned, spawn_worker st)
  | Returned => (Returned, st)
  end.

(** Caller [i] takes its next step. *)
Definition ensure_sched (i : nat) (cfg : list caller_pc * state)
    : list caller_pc * state :=
  let '(pcs, st) := cfg in
  match pcs !! i with
  | Some pc =>
      let '(pc, st) := ensure_step pc st in (<[i := pc]> pcs, st)
  | None => cfg
  end.

Definition ensure_run (schedule : list nat) (cfg : list caller_pc * state)
    : list caller_pc * state :=
  fold_left (fun cfg i => ensure_sched i cfg) schedule cfg.

(** ** Reading a trace *)

(** The comments taken off the queue, in the order of their [popleft]. *)
Definition dequeued (tr : list event) : list comment :=
  flat_map (fun e => match e with EvDequeue c => [c] | _ => [] end) tr.

(** The durations slept, in order. *)
Definition sleeps (tr : list event) : list Q :=
  flat_map (fun e => match e with EvSleep d => [d] | _ => [] end) tr.

(** The durations on which [time.sleep] raised, in order. *)
Definition raised (tr : list event) : list Q :=
  flat_map (fun e => match e with EvSleepRaised d => [d] | _ => [] end) tr.

(** The comments the executor was called on, one entry per call. *)
Definition invoked (tr : list event) : list comment :=
  flat_map (fun e => match e with EvInvoke c _ _ => [c] | _ => [] end) tr.

(** The HTTP requests sent, by target. *)
Definition http_posts (tr : list event) : list string :=
  flat_map (fun e => match e with EvHttpPost t _ _ _ _ => [t] | _ => [] end) tr.

(** The comment of the first executor call after each [popleft]: the order
    in which dequeued comments begin execution. [fresh] tells whether a
    comment has been dequeued and is waiting for its first executor call;
    a sleep that raises ends the wait, the comment is not executed. *)
Fixpoint first_executions (fresh : bool) (tr : list event) : list comment :=
  match tr with
  | [] => []
  | EvDequeue _ :: tr => first_executions true tr
  | EvInvoke c _ _ :: tr =>
      if fresh then c :: first_executions false tr
      else first_executions false tr
  | EvSleepRaised _ :: tr => first_executions false tr
  | _ :: tr => first_executions fresh tr
  end.

(** The last [n] elements of a list. *)
Definition last_n {A} (n : nat) (l : list A) : list A :=
  drop (length l - n) l.

(** The thread-related globals. *)
Definition lifecycle (st : state) : list thread * option nat * bool :=
  (threads st, worker_thread st, worker_running st).

(** What holds of the thread-related globals in every state the server
    reaches when its operations do not overlap: no thread was ever started,
    or the flag is set, [worker_thread] names the thread started last, that
    thread is alive or was ended by an exception, and every earlier thread
    was ended by an exception. *)
Definition lifecycle_inv (st : state) : Prop :=
  (threads st = [] /\ worker_thread st = None) \/
  (worker_running st = true /\
   exists earlier th,
     threads st = earlier ++ [th] /\
     worker_thread st = Some (length earlier) /\
     Forall (fun x => x = Raised) earlier /\
     th <> Finished).

(** ** Vocabulary of the submission contract *)

(** The batch is empty: there is no [comments] entry, or it is the empty
    list. *)
Definition batch_empty (data : option request_json) : Prop :=
  match data with
  | None => True
  | Some j => j_comments j = None \/ j_comments j = Some []
  end.

(** The credential bundle is missing or empty. *)
Definition cookies_missing (data : option request_json) : Prop :=
  match data with
  | None => True
  | Some j => j_cookies j = None \/ j_cookies j = Some ∅
  end.

(** The token is missing or empty. *)
Definition token_missing (data : option request_json) : Prop :=
  match data with
  | None => True
  | Some j => j_csrf_token j = None \/ j_csrf_token j = Some ""
  end.

Definition is_bad_request (r : response) : bool :=
  match r with
  | BadRequest _ => true
  | Accepted _ _ => false
  end.

(** The comments of a batch with their identifiers written in. *)
Definition tag_ids (comments : list comment) (ids : list string) : list comment :=
  zip_with (fun c i => <["id" := i]> c) comments ids.

(** The world after [n] more UUIDs have been drawn. *)
Definition after_uuids (n : nat) (w : world) : world :=
  {| uuid_calls := uuid_calls w + n; random_calls := random_calls w;
     http_calls := http_calls w; clock_calls := clock_calls w;
     trace := trace w |}.

(** The events of one executor call after its [EvInvoke]: nothing, or the
    one HTTP request. *)
Definition at_most_one_post (evs : list event) : Prop :=
  evs = [] \/ exists t r ck tok txt, evs = [EvHttpPost t r ck tok txt].

(** A field of the payload is missing or empty. *)
Definition missing_or_empty (c : comment) (key : string) : Prop :=
  c !! key = None \/ c !! key = Some "".

(** ** Sample inputs *)

Definition sample_comment : comment :=
  {[ "url" := "https://www.reddit.com/r/test/comments/abc123/a_title/";
     "ai_comment" := "Nice write-up";
     "title" := "A title";
     "subreddit" := "test" ]}.

Definition sample_comment_no_url : comment :=
  {[ "ai_comment" := "Nice write-up"; "title" := "A title";
     "subreddit" := "test" ]}.

Definition sample_cookies : cookie_jar := {[ "reddit_session" := "abc" ]}.

Definition sample_now : string := "2024-01-01T00:00:00+00:00".

(** A [random.uniform] that always returns the middle of its range. *)
Definition uniform_midpoint (k : nat) (a b : Q) : Q := ((a + b) / 2)%Q.

(** [time.sleep] raising on the negative durations, and on no other. *)
Definition negative (d : Q) : bool := (Qnum d <? 0)%Z.

(** The first two requests fail (a 500, then an exception), later ones
    succeed. *)
Definition flaky_env : oracle :=
  {| os_urandom16 := fun k => Z.of_nat k;
     uniform_value := uniform_midpoint;
     sleep_raises := negative;
     http_reply := fun k =>
       match k with
       | 0 => Some 500%Z
       | 1 => None
       | _ => Some 200%Z
       end;
     utc_now_iso := fun _ => sample_now |}.

(** Every request is answered 503. *)
Definition down_env : oracle :=
  {| os_urandom16 := fun k => Z.of_nat k;
     uniform_value := uniform_midpoint;
     sleep_raises := negative;
     http_reply := fun _ => Some 503%Z;
     utc_now_iso := fun _ => sample_now |}.

Definition sample_body (comments : list comment) (min_wait max_wait : Z)
    : request_json :=
  {| j_comments := Some comments;
     j_cookies := Some sample_cookies;
     j_csrf_token := Some "tok";
     j_min_wait := Some (whole_seconds min_wait);
     j_max_wait := Some (whole_seconds max_wait);
     j_other_keys := false |}.


(** ** Vocabulary of service order and history *)

(** Whether a dequeued comment is waiting for its first executor call
    after the events [tr]. *)
Fixpoint fresh_after (fresh : bool) (tr : list event) : bool :=
  match tr with
  | [] => fresh
  | EvDequeue _ :: tr => fresh_after true tr
  | EvInvoke _ _ _ :: tr => fresh_after false tr
  | EvSleepRaised _ :: tr => fresh_after false tr
  | _ :: tr => fresh_after fresh tr
  end.

(** Tasks that have finished execution, with either outcome. *)
Definition completions (st : state) : nat :=
  total_success st + total_fail st.

(** [rs] holds one result per comment of [cs], in the same order. *)
Definition records_of (rs : list result) (cs : list comment) : Prop :=
  Forall2 (fun r c => exists s ts, r = make_result c s ts) rs cs.

(** From [(st, w)] to [(st', w')] the events [new] happened: every comment
    dequeued began execution, or was dropped by a sleep that raised, before
    the next one was dequeued, and the results [rs], one per executed
    comment, went into the history, of which the last [MAX_HISTORY] entries
    are kept provided it held no more than that before. *)
Definition served (st : state) (w : world) (st' : state) (w' : world)
    (new : list event) (rs : list result) : Prop :=
  trace w' = trace w ++ new /\
  sublist (first_executions false new) (dequeued new) /\
  length (dequeued new)
    = length (first_executions false new) + length (raised new) /\
  fresh_after false new = false /\
  records_of rs (first_executions false new) /\
  completions st' = completions st + length rs /\
  (length (posting_history st) <= MAX_HISTORY ->
   posting_history st' = last_n MAX_HISTORY (posting_history st ++ rs) /\
   length (posting_history st') <= MAX_HISTORY).

Definition is_clear (o : op) : bool :=
  match o with
  | OpClear => true
  | _ => false
  end.

(** From [st] to [st'], with events [new], the comments [arrived] were
    appended to the queue and none was removed other than by a [popleft]:
    what was dequeued, followed by what is pending, is what was pending
    followed by what arrived. *)
Definition fifo (st st' : state) (new : list event) (arrived : list comment)
    : Prop :=
  dequeued new ++ comment_queue st' = comment_queue st ++ arrived.

(** Two comments are submitted and the worker makes three passes. *)
Definition ops_two_tasks : list op :=
  [OpSubmit (Some (sample_body [sample_comment; sample_comment_no_url] 0 0));
   OpWorker 0; OpWorker 0; OpWorker 0].

(** ** Identifiers handed out over a run *)

Definition response_ids (r : response) : list string :=
  match r with
  | Accepted ids _ => ids
  | BadRequest _ => []
  end.

(** The identifiers returned by the submissions of a run, in order. *)
Fixpoint assigned_ids (env : oracle) (ops : list op) (sw : state * world)
    : list string :=
  match ops with
  | [] => []
  | o :: ops' =>
      match o with
      | OpSubmit data => response_ids (receive_comments env data sw.1 sw.2).1.1
      | _ => []
      end ++ assigned_ids env ops' (step env o sw)
  end.

(** The [time_low] field of the [k]-th UUID drawn. *)
Definition drawn_time_low (env : oracle) (k : nat) : Z :=
  Uuid.time_low (Uuid.uuid4 (os_urandom16 env k)).

(** Two different draws of sixteen random bytes that agree in their first
    four bytes. *)
Definition colliding_env : oracle :=
  {| os_urandom16 := fun k =>
       match k with
       | 0 => 0x3f2a9c411b7e4d2a8f0163c59d0e7a6b%Z
       | _ => 0x3f2a9c41e5d3c2b1a0f98e7d6c5b4a39%Z
       end;
     uniform_value := uniform_midpoint;
     sleep_raises := negative;
     http_reply := fun _ => Some 200%Z;
     utc_now_iso := fun _ => sample_now |}.

(** Two submissions of one comment each. *)
Definition ops_two_submissions : list op :=
  [OpSubmit (Some (sample_body [sample_comment] 4 6));
   OpSubmit (Some (sample_body [sample_comment_no_url] 4 6))].

(** The comments appended to the queue by the submissions of a run, in
    order: those of each accepted batch, tagged with their identifiers. *)
Definition step_arrivals (env : oracle) (o : op) (sw : state * world)
    : list comment :=
  match o with
  | OpSubmit data =>
      tag_ids (default [] (data ≫= j_comments))
        (response_ids (receive_comments env data sw.1 sw.2).1.1)
  | _ => []
  end.

Fixpoint arrivals (env : oracle) (ops : list op) (sw : state * world)
    : list comment :=
  match ops with
  | [] => []
  | o :: ops' => step_arrivals env o sw ++ arrivals env ops' (step env o sw)
  end.

(** As [fifo], when comments may also have been removed by a clear: what
    was dequeued, followed by what is pending, is what was pending followed
    by what arrived, with some comments left out. *)
Definition fifo_sub (st st' : state) (new : list event) (arrived : list comment)
    : Prop :=
  sublist (dequeued new ++ comment_queue st') (comment_queue st ++ arrived).

(** ** Read-only routes *)

(** One entry of the [pending] list of the status routes. *)
Record pending_summary := {
  p_id : string;
  p_subreddit : string;
  p_title : string;
}.

Definition summarize (c : comment) : pending_summary :=
  {| p_id := get_str c "id";
     p_subreddit := get_str c "subreddit";
     p_title := PyStr.take 80 (get_str c "title") |}.

Record status_report := {
  s_queue_size : nat;
  s_pending : list pending_summary;
  s_worker_alive : bool;
  s_recent_history : list result;
}.

(** [status]: the size and the summaries of the queue under [queue_lock],
    [posting_history[-50:]] under [history_lock], and the liveness of the
    worker. *)
Definition status (st : state) : status_report :=
  {| s_queue_size := length (comment_queue st);
     s_pending := map summarize (comment_queue st);
     s_worker_alive := worker_alive st;
     s_recent_history := last_n 50 (posting_history st) |}.

(** [_human_uptime], from [secs = int(delta.total_seconds())]. The parts
    are kept as pairs of a number and its unit before they are printed.
    [divmod] is floor division with its remainder. *)
Definition uptime_parts (secs : Z) : list (Z * string) :=
  let days := (secs / 86400)%Z in
  let rem := (secs mod 86400)%Z in
  let hours := (rem / 3600)%Z in
  let rem := (rem mod 3600)%Z in
  let mins := (rem / 60)%Z in
  let secs := (rem mod 60)%Z in
  let parts := [] in
  let parts := if Z.eqb days 0 then parts else parts ++ [(days, "d")] in
  let parts := if Z.eqb hours 0 then parts else parts ++ [(hours, "h")] in
  let parts := if Z.eqb mins 0 then parts else parts ++ [(mins, "m")] in
  parts ++ [(secs, "s")].

Definition _human_uptime (secs : Z) : string :=
  String.concat " " (map (fun p => pretty p.1 +:+ p.2) (uptime_parts secs)).

Record now_posting := {
  np_subreddit : string;
  np_title : string;
}.

Record dashboard_report := {
  d_queue_size : nat;
  d_pending : list pending_summary;
  d_total_received : nat;
  d_total_success : nat;
  d_total_fail : nat;
  d_worker_alive : bool;
  d_currently_posting : option now_posting;
  d_recent_history : list result;
  d_min_wait : Q;
  d_max_wait : Q;
  d_uptime : string;
}.

(** [dashboard_status]; [uptime_secs] is the whole number of seconds since
    the server started. An empty dictionary in [currently_posting] counts as
    none. *)
Definition dashboard_status (uptime_secs : Z) (st : state) : dashboard_report :=
  {| d_queue_size := length (comment_queue st);
     d_pending := map summarize (comment_queue st);
     d_total_received := total_received st;
     d_total_success := total_success st;
     d_total_fail := total_fail st;
     d_worker_alive := worker_alive st;
     d_currently_posting :=
       match currently_posting st with
       | Some c =>
           if bool_decide (c = ∅) then None
           else Some {| np_subreddit := get_str c "subreddit";
                        np_title := PyStr.take 80 (get_str c "title") |}
       | None => None
       end;
     d_recent_history := last_n 50 (posting_history st);
     d_min_wait := (wait_range st).1;
     d_max_wait := (wait_range st).2;
     d_uptime := _human_uptime uptime_secs |}.

(** ** Vocabulary of the further properties *)

(** The weight in seconds of a unit of [_human_uptime]. *)
Definition unit_seconds (u : string) : Z :=
  if String.eqb u "d" then 86400
  else if String.eqb u "h" then 3600
  else if String.eqb u "m" then 60
  else 1.

(** The number of seconds a list of parts stands for. *)
Definition parts_seconds (parts : list (Z * string)) : Z :=
  fold_right (fun p acc => (p.1 * unit_seconds p.2 + acc)%Z) 0%Z parts.

(** The number of comments removed by the clears of a run. *)
Fixpoint cleared (env : oracle) (ops : list op) (sw : state * world) : nat :=
  match ops with
  | [] => 0
  | o :: ops' =>
      match o with
      | OpClear => (clear_queue sw.1).1
      | _ => 0
      end + cleared env ops' (step env o sw)
  end.


Definition is_submit (o : op) : bool :=
  match o with
  | OpSubmit _ => true
  | _ => false
  end.



(** The calls of the executor with the credentials they were given. *)
Definition invocations (tr : list event) : list (comment * cookie_jar * string) :=
  flat_map
    (fun e => match e with EvInvoke c ck tok => [(c, ck, tok)] | _ => [] end) tr.

(** ** Vocabulary of URLs *)

(** The string has no ["/"] in it. *)
Fixpoint no_slash (s : string) : bool :=
  match s with
  | EmptyString => true
  | String c s' => negb (Ascii.eqb c "/") && no_slash s'
  end.

(** [k] slashes. *)
Definition slashes (k : nat) : string :=
  PyStr.of_list (replicate k "/"%char).

(** A URL written as its segments joined by ["/"], with [k] slashes behind
    them. *)
Definition url_of (segments : list string) (k : nat) : string :=
  String.concat "/" segments +:+ slashes k.

(** The segments of a URL: none contains a slash and the last one is not
    empty. *)
Definition url_segments (segments : list string) : Prop :=
  Forall (fun s => no_slash s = true) segments /\
  exists init z, segments = init ++ [z] /\ z <> "".

(** The operation is a submission that the server accepts in [sw]. *)
Definition accepted (env : oracle) (o : op) (sw : state * world) : bool :=
  match o with
  | OpSubmit data => negb (is_bad_request (receive_comments env data sw.1 sw.2).1.1)
  | _ => false
  end.

(** ** Sample inputs with negative waits *)

(** Every request is answered 200, and the [k]-th identifier drawn spells
    [k + 1]. *)
Definition steady_env : oracle :=
  {| os_urandom16 := fun k => Z.shiftl (Z.of_nat (S k)) 96;
     uniform_value := uniform_midpoint;
     sleep_raises := negative;
     http_reply := fun _ => Some 200%Z;
     utc_now_iso := fun _ => sample_now |}.

(** A well-formed comment and one without [url] are submitted together
    with both waits set to -1, and the worker makes two passes. *)
Definition ops_negative_waits : list op :=
  [OpSubmit (Some (sample_body [sample_comment; sample_comment_no_url] (-1) (-1)));
   OpWorker 0; OpWorker 0].

(** ** Vocabulary of the worker's sessions *)





(** [time.sleep] returns on whatever [random.uniform] gives for the waits
    that [st] holds. *)
Definition waits_accepted (env : oracle) (st : state) : Prop :=
  forall k,
    sleep_raises env (uniform_value env k (wait_range st).1 (wait_range st).2)
      = false.

(** * Properties *)

(** ** Lifecycle: which globals each function leaves alone *)

Section Frames.

Variable env : oracle.

Lemma record_result_lifecycle c success st w st' w' :
  record_result env c success st w = (st', w') -> lifecycle st' = lifecycle st.
Proof. intros [= <- _]; done. Qed.

Lemma count_outcome_lifecycle success st :
  lifecycle (count_outcome success st) = lifecycle st.
Proof. by destruct success. Qed.

(** The body of the loop never asks for the [break]. *)
Lemma worker_task_lifecycle is_first c st w ctl st' w' :
  worker_task env is_first c st w = (ctl, st', w') ->
  lifecycle st' = lifecycle st /\ ctl <> Break.
Proof.
  unfold worker_task, random_uniform, time_sleep.
  destruct is_first; [|destruct (sleep_raises env _)];
    try (intros [= <- <- _]; done);
    destruct (post_comment_to_reddit _ _ _ _ _) as [success w1];
    destruct (record_result _ _ _ _ _) as [st2 w2] eqn:E;
    intros [= <- <- _]; apply record_result_lifecycle in E;
    by rewrite E, count_outcome_lifecycle.
Qed.

Lemma keepalive_task_lifecycle c posted failed cookies tok st w p f st' w' :
  keepalive_task env c posted failed cookies tok st w = (p, f, st', w') ->
  lifecycle st' = lifecycle st.
Proof.
  unfold keepalive_task.
  destruct (keepalive_attempts _ _ _ _ _ _) as [success w1].
  destruct (record_result _ _ _ _ _) as [st2 w2] eqn:E.
  intros [= _ _ <- _]. apply record_result_lifecycle in E.
  by rewrite E, count_outcome_lifecycle.
Qed.

Lemma keepalive_loop_lifecycle fuel posted failed cookies tok st w p f st' w' :
  keepalive_loop env fuel posted failed cookies tok st w = Some (p, f, st', w') ->
  lifecycle st' = lifecycle st.
Proof.
  revert posted failed st w.
  induction fuel as [|fuel IH]; intros posted failed st w; simpl; [done|].
  destruct (comment_queue st) as [|c rest] eqn:Q.
  - intros [= _ _ <- _]; done.
  - destruct (keepalive_task _ _ _ _ _ _ _ _) as [[[p1 f1] st1] w1] eqn:E.
    intros H. apply IH in H. apply keepalive_task_lifecycle in E. by rewrite H, E.
Qed.

Lemma keepalive_lifecycle st w r st' w' :
  keepalive env st w = Some (r, st', w') -> lifecycle st' = lifecycle st.
Proof.
  unfold keepalive.
  destruct (keepalive_loop _ _ _ _ _ _ _ _) as [[[[p f] st1] w1]|] eqn:E; [|done].
  intros [= _ <- _]. by apply keepalive_loop_lifecycle in E.
Qed.

Lemma enqueue_all_lifecycle comments st w ids st' w' :
  enqueue_all env comments st w = (ids, st', w') -> lifecycle st' = lifecycle st.
Proof.
  revert st w ids st' w'.
  induction comments as [|c cs IH]; intros st w ids st' w'; simpl.
  - intros [= _ <- _]; done.
  - destruct (enqueue_all _ _ _ _) as [[ids1 st1] w1] eqn:E.
    intros [= _ <- _]. by apply IH in E.
Qed.

(** A pass of the worker loop never reaches [break] while the flag is set,
    and leaves the flag as it found it. *)
Lemma worker_iteration_running is_first st w ctl st' w' :
  worker_running st = true ->
  worker_iteration env is_first st w = (ctl, st', w') ->
  ctl <> Break /\ lifecycle st' = lifecycle st.
Proof.
  intros Hrun. unfold worker_iteration, queue_is_empty.
  destruct (comment_queue st) as [|c rest] eqn:Q.
  - rewrite Hrun. simpl. by intros [= <- <- _].
  - intros E. apply worker_task_lifecycle in E as [-> ?]. done.
Qed.

(** One pass of the loop is one pass through its body. *)
Lemma worker_loop_one is_first st w :
  worker_loop_from env 1 is_first st w = worker_iteration env is_first st w.
Proof.
  simpl. by destruct (worker_iteration env is_first st w) as [[[] ?] ?].
Qed.

Lemma worker_loop_from_running fuel is_first st w ctl st' w' :
  worker_running st = true ->
  worker_loop_from env fuel is_first st w = (ctl, st', w') ->
  ctl <> Break /\ lifecycle st' = lifecycle st.
Proof.
  revert is_first st w.
  induction fuel as [|fuel IH]; intros is_first st w Hrun; simpl.
  { by intros [= <- <- _]. }
  destruct (worker_iteration env is_first st w) as [[ctl1 st1] w1] eqn:E.
  destruct (worker_iteration_running _ _ _ _ _ _ Hrun E) as [Hctl Hl].
  destruct ctl1 as [f| |]; [|done|by intros [= <- <- _]].
  intros H. apply IH in H as [? H].
  - split; [done|]. by rewrite H, Hl.
  - injection Hl as _ _ ->. exact Hrun.
Qed.

End Frames.

(** ** The worker's lifetime *)

Section Lifetime.

Variable env : oracle.

Lemma lifecycle_inv_eq st st' :
  lifecycle st' = lifecycle st -> lifecycle_inv st -> lifecycle_inv st'.
Proof.
  unfold lifecycle, lifecycle_inv. intros [= Ht Hw Hr].
  rewrite Ht, Hw, Hr. tauto.
Qed.

Lemma lifecycle_inv_initial : lifecycle_inv initial_state.
Proof. left. done. Qed.

(** Under the invariant a live thread is the one started last, and
    [worker_thread] names it. *)
Lemma inv_alive_thread st t f :
  lifecycle_inv st -> threads st !! t = Some (Alive f) ->
  worker_running st = true /\
  exists earlier,
    threads st = earlier ++ [Alive f] /\ t = length earlier /\
    worker_thread st = Some t /\ Forall (fun x => x = Raised) earlier.
Proof.
  intros [[Hnil _]|(Hr & earlier & th & Hts & Hw & Hdead & Hth)] Ht.
  { by rewrite Hnil in Ht. }
  split; [done|]. exists earlier. rewrite Hts in Ht.
  apply lookup_app_Some in Ht as [Ht|[Hle Ht]].
  - by pose proof (Forall_lookup_1 _ _ _ _ Hdead Ht).
  - destruct (t - length earlier) as [|k] eqn:Hk; [|by destruct k].
    injection Ht as ->. assert (t = length earlier) as -> by lia. done.
Qed.

Lemma ensure_worker_inv st : lifecycle_inv st -> lifecycle_inv (_ensure_worker st).
Proof.
  unfold _ensure_worker, worker_alive.
  intros [[Ht Hw]|(Hr & earlier & th & Hts & Hw & Hdead & Hth)].
  - rewrite Hw. right. simpl. rewrite Ht. split; [done|].
    exists [], (Alive true). by repeat split.
  - rewrite Hw, Hts, lookup_app_r, Nat.sub_diag by lia. simpl.
    destruct th as [b| |]; simpl; [right; eauto 10|done|].
    right. split; [done|]. exists (earlier ++ [Raised]), (Alive true).
    simpl. rewrite Hts. repeat split; try done.
    apply Forall_app. split; [done|]. by repeat constructor.
Qed.

Lemma receive_comments_inv data st w r st' w' :
  receive_comments env data st w = (r, st', w') ->
  lifecycle_inv st -> lifecycle_inv st'.
Proof.
  unfold receive_comments. intros H Hinv.
  destruct (body_falsy data); [by injection H as _ <- _|].
  destruct (bool_decide _); [by injection H as _ <- _|].
  destruct (_ || _); [by injection H as _ <- _|].
  destruct (enqueue_all _ _ _ _) as [[ids st1] w1] eqn:E.
  injection H as _ <- _. apply enqueue_all_lifecycle in E.
  apply ensure_worker_inv. eapply lifecycle_inv_eq; [|exact Hinv].
  transitivity (lifecycle st1); [reflexivity|]. by rewrite E.
Qed.

Lemma worker_pass_inv t st w st' w' :
  worker_pass env t st w = (st', w') -> lifecycle_inv st -> lifecycle_inv st'.
Proof.
  unfold worker_pass. intros H Hinv.
  destruct (threads st !! t) as [[f| |]|] eqn:Ht; try (by injection H as <- _).
  destruct (inv_alive_thread _ _ _ Hinv Ht) as (Hr & earlier & Hts & -> & Hw & Hdead).
  rewrite worker_loop_one in H.
  destruct (worker_iteration env f st w) as [[ctl st1] w1] eqn:E.
  destruct (worker_iteration_running _ _ _ _ _ _ _ Hr E) as [Hctl Hl].
  injection H as <- _. injection Hl as Hts1 Hw1 Hr1.
  right. simpl. rewrite Hr1, Hw1, Hts1, Hts. split; [done|].
  exists earlier, (thread_after ctl).
  rewrite insert_app_r_alt, Nat.sub_diag by lia.
  repeat split; try done. by destruct ctl.
Qed.

Lemma step_inv o st w st' w' :
  step env o (st, w) = (st', w') -> lifecycle_inv st -> lifecycle_inv st'.
Proof.
  destruct o as [data|t| |]; simpl.
  - destruct (receive_comments _ _ _ _) as [[r st1] w1] eqn:E.
    intros [= <- _]. by eapply receive_comments_inv.
  - apply worker_pass_inv.
  - destruct (keepalive _ _ _) as [[[r st1] w1]|] eqn:E.
    + intros [= <- _]. apply keepalive_lifecycle in E. by apply lifecycle_inv_eq.
    + intros [= <- _]; done.
  - intros [= <- _]; done.
Qed.

Lemma run_cons o ops sw :
  run env (o :: ops) sw = run env ops (step env o sw).
Proof. reflexivity. Qed.

Lemma run_snoc ops o sw :
  run env (ops ++ [o]) sw = step env o (run env ops sw).
Proof. unfold run. by rewrite fold_left_app. Qed.

Lemma run_inv ops st w :
  lifecycle_inv st -> lifecycle_inv (run env ops (st, w)).1.
Proof.
  revert st w. induction ops as [|o ops IH]; intros st w Hinv; [done|].
  rewrite run_cons. destruct (step env o (st, w)) as [st1 w1] eqn:E.
  apply IH. by eapply step_inv.
Qed.

Lemma reachable_inv ops :
  lifecycle_inv (run env ops (initial_state, initial_world)).1.
Proof. apply run_inv, lifecycle_inv_initial. Qed.

Lemma filter_alive_raised earlier :
  Forall (fun x => x = Raised) earlier -> List.filter is_alive earlier = [].
Proof.
  induction 1 as [|x l -> _ IH]; [done|]. simpl. exact IH.
Qed.

(** Under the invariant the live workers are the one [worker_thread] names,
    if it is alive. *)
Lemma inv_live_workers st :
  lifecycle_inv st ->
  live_workers st = (if worker_alive st then 1 else 0).
Proof.
  unfold live_workers, worker_alive.
  intros [[-> ->]|(_ & earlier & th & -> & -> & Hdead & _)]; [done|].
  rewrite List.filter_app, filter_alive_raised by done.
  rewrite lookup_app_r, Nat.sub_diag by lia. simpl. by destruct (is_alive th).
Qed.

(** Calls of [_ensure_worker] that do not overlap never leave more than one
    worker alive. *)
Lemma sequential_runs_have_one_worker ops :
  live_workers (run env ops (initial_state, initial_world)).1 <= 1.
Proof.
  rewrite inv_live_workers by apply reachable_inv.
  destruct (worker_alive _); lia.
Qed.

End Lifetime.

(** A caller that runs its two steps without interruption does what
    [_ensure_worker] does. *)
Lemma ensure_steps_alone st :
  (ensure_run [0; 0] ([AtCheck], st)).2 = _ensure_worker st.
Proof.
  unfold _ensure_worker. simpl. by destruct (worker_alive st).
Qed.

(** While the worker is alive a call changes nothing. *)
Lemma ensure_worker_idempotent st :
  worker_alive st = true -> _ensure_worker st = st.
Proof. unfold _ensure_worker. by intros ->. Qed.

(** C2 (the code does not do this). Two callers of [_ensure_worker] that
    both evaluate the liveness test before either starts its thread both
    start one: from the initial state, the schedule check, check, spawn,
    spawn ends with both calls returned and two live workers. *)
Theorem ensure_worker_race_starts_two_workers :
  (ensure_run [0; 1; 0; 1] ([AtCheck; AtCheck], initial_state)).1
    = [Returned; Returned] /\
  live_workers (ensure_run [0; 1; 0; 1] ([AtCheck; AtCheck], initial_state)).2 = 2.
Proof. split; reflexivity. Qed.

(** ** Submission *)

Section Submission.

Variable env : oracle.

Lemma after_uuids_0 w : after_uuids 0 w = w.
Proof. destruct w. unfold after_uuids. simpl. f_equal. lia. Qed.

(** What the loop under [queue_lock] computes. *)
Lemma enqueue_all_spec comments st w :
  let ids := map (comment_id_at env) (seq (uuid_calls w) (length comments)) in
  enqueue_all env comments st w =
    (ids,
     set_comment_queue (comment_queue st ++ tag_ids comments ids) st,
     after_uuids (length comments) w).
Proof.
  revert st w. induction comments as [|c cs IH]; intros st w; simpl.
  - rewrite app_nil_r, after_uuids_0. by destruct st.
  - unfold fresh_comment_id. rewrite IH. simpl. f_equal; [f_equal|].
    + unfold set_comment_queue. simpl. by rewrite <- app_assoc.
    + unfold after_uuids. simpl. f_equal. lia.
Qed.

Lemma body_falsy_empty data :
  body_falsy data = true -> batch_empty data.
Proof.
  destruct data as [j|]; simpl; [|done]. unfold no_keys.
  destruct (j_comments j); [done|]. by left.
Qed.

Lemma comments_empty_iff data :
  default [] (data ≫= j_comments) = [] <-> batch_empty data.
Proof.
  destruct data as [j|]; simpl; [|done].
  destruct (j_comments j) as [cs|]; simpl; [|tauto].
  split; [intros ->; by right|]. by intros [|[= ->]].
Qed.

Lemma cookies_empty_iff data :
  default (∅ : cookie_jar) (data ≫= j_cookies) = ∅ <-> cookies_missing data.
Proof.
  destruct data as [j|]; simpl; [|done].
  destruct (j_cookies j) as [ck|]; simpl; [|tauto].
  split; [intros ->; by right|]. by intros [|[= ->]].
Qed.

Lemma token_falsy_iff data :
  PyStr.falsy (default "" (data ≫= j_csrf_token)) = true <-> token_missing data.
Proof.
  destruct data as [j|]; simpl; [|done].
  destruct (j_csrf_token j) as [tok|]; simpl; [|tauto].
  destruct tok; simpl; split; try done; try (by right).
  by intros [|[=]].
Qed.

(** C6. [receive_comments] answers 400 exactly when the batch is empty or
    the cookies or the token are missing or empty, and a rejected request
    leaves the whole store, the pending queue included, as it was. *)
Theorem submission_validation data st w :
  (is_bad_request (receive_comments env data st w).1.1 = true <->
   batch_empty data \/ cookies_missing data \/ token_missing data) /\
  match receive_comments env data st w with
  | (BadRequest _, st', w') => st' = st /\ w' = w
  | (Accepted _ _, _, _) => True
  end.
Proof.
  unfold receive_comments.
  destruct (body_falsy data) eqn:Hb.
  { simpl. split; [|done]. split; [|done]. intros _. left. by apply body_falsy_empty. }
  pose proof (comments_empty_iff data) as Hc.
  pose proof (cookies_empty_iff data) as Hk.
  pose proof (token_falsy_iff data) as Ht.
  case_bool_decide as Hcs.
  { simpl. split; [|done]. split; [|done]. intros _. left. by apply Hc. }
  case_bool_decide as Hck; simpl.
  { split; [|done]. split; [|done]. intros _. right. left. by apply Hk. }
  destruct (PyStr.falsy _) eqn:Htok.
  { simpl. split; [|done]. split; [|done]. intros _. right. right. by apply Ht. }
  destruct (enqueue_all _ _ _ _) as [[ids st1] w1]. simpl.
  split; [|done]. split; [done|].
  intros [H|[H|H]].
  - by apply Hc in H.
  - by apply Hk in H.
  - apply Ht in H. congruence.
Qed.

(** What an accepted submission does. *)
Lemma receive_comments_accepts j comments cookies tok st w :
  j_comments j = Some comments -> comments <> [] ->
  j_cookies j = Some cookies -> cookies <> ∅ ->
  j_csrf_token j = Some tok -> tok <> "" ->
  let ids := map (comment_id_at env) (seq (uuid_calls w) (length comments)) in
  let st1 :=
    set_comment_queue (comment_queue st ++ tag_ids comments ids)
      (set_session cookies tok
         (default (whole_seconds 4) (j_min_wait j),
          default (whole_seconds 6) (j_max_wait j)) st) in
  let st2 :=
    _ensure_worker
      (set_counters (total_received st + length comments)
         (total_success st) (total_fail st) st1) in
  receive_comments env (Some j) st w
    = (Accepted ids (length (comment_queue st2)), st2,
       after_uuids (length comments) w).
Proof.
  intros Hc Hne Hk Hkne Ht Htne.
  unfold receive_comments, body_falsy, no_keys. rewrite Hc. simpl.
  rewrite Hc, Hk, Ht. simpl.
  rewrite bool_decide_eq_false_2 by done.
  rewrite bool_decide_eq_false_2 by done.
  destruct tok as [|a tok]; [done|]. simpl.
  by rewrite enqueue_all_spec.
Qed.

(** C5. A non-empty batch submitted with non-empty cookies and token is
    accepted. The answer carries one identifier per comment, the [k]-th one
    drawn for the [k]-th comment; the comments, each with its identifier
    written in, are appended in input order behind what was pending; and
    [total_received] grows by the size of the batch. *)
Theorem enqueue_contract j comments cookies tok st w :
  j_comments j = Some comments -> comments <> [] ->
  j_cookies j = Some cookies -> cookies <> ∅ ->
  j_csrf_token j = Some tok -> tok <> "" ->
  exists ids st' w',
    receive_comments env (Some j) st w
      = (Accepted ids (length (comment_queue st')), st', w') /\
    ids = map (comment_id_at env) (seq (uuid_calls w) (length comments)) /\
    length ids = length comments /\
    comment_queue st' = comment_queue st ++ tag_ids comments ids /\
    length (tag_ids comments ids) = length comments /\
    total_received st' = total_received st + length comments.
Proof.
  intros Hc Hne Hk Hkne Ht Htne.
  rewrite (receive_comments_accepts j comments cookies tok st w) by done.
  eexists _, _, _. split; [reflexivity|].
  assert (Hlen : length (map (comment_id_at env) (seq (uuid_calls w) (length comments)))
                 = length comments)
    by (by rewrite length_map, length_seq).
  split; [done|]. split; [done|].
  unfold _ensure_worker. split; [by destruct (worker_alive _)|].
  split.
  - unfold tag_ids. rewrite length_zip_with, Hlen. lia.
  - by destruct (worker_alive _).
Qed.

End Submission.

(** ** The executor and the two loop bodies *)

Section Bodies.

Variable env : oracle.

Lemma trace_emit e w : trace (emit e w) = trace w ++ [e].
Proof. reflexivity. Qed.

Lemma missing_or_empty_get c key :
  missing_or_empty c key <-> get_str c key = "".
Proof.
  unfold missing_or_empty, get_str.
  destruct (c !! key) as [s|]; simpl; [|tauto].
  split; [by intros [|[= ->]]|]. intros ->. by right.
Qed.

(** A call of the executor logs itself, sends at most one request, and
    draws neither random numbers nor the time. *)
Lemma executor_effects c cookies tok w s w' :
  post_comment_to_reddit env c cookies tok w = (s, w') ->
  exists posts,
    trace w' = trace w ++ EvInvoke c cookies tok :: posts /\
    at_most_one_post posts /\
    random_calls w' = random_calls w /\ clock_calls w' = clock_calls w /\
    uuid_calls w' = uuid_calls w.
Proof.
  unfold post_comment_to_reddit, at_most_one_post.
  destruct (_ || _).
  { intros [= _ <-]. exists []. simpl. auto. }
  destruct (no_post_id _).
  { intros [= _ <-]. exists []. simpl. auto. }
  unfold http_post. simpl.
  destruct (http_reply env _); intros [= _ <-]; simpl;
    rewrite <- app_assoc; simpl; eexists; (split; [reflexivity|]); eauto 10.
Qed.

(** Without a destination or without a text the executor gives up before
    sending anything. *)
Lemma executor_rejects c cookies tok w :
  missing_or_empty c "url" \/ missing_or_empty c "ai_comment" ->
  post_comment_to_reddit env c cookies tok w
    = (false, emit (EvInvoke c cookies tok) w).
Proof.
  rewrite !missing_or_empty_get. unfold post_comment_to_reddit.
  by intros [-> | ->]; simpl; rewrite ?orb_true_r.
Qed.

Lemma record_history_last r h : last (record_history r h) = Some r.
Proof.
  unfold record_history.
  destruct (Nat.ltb_spec MAX_HISTORY (length (h ++ [r]))) as [Hlt|_].
  - destruct h as [|r0 h]; simpl.
    + simpl in Hlt. unfold MAX_HISTORY in Hlt. lia.
    + apply last_snoc.
  - apply last_snoc.
Qed.

(** The loop body of the worker, after the [popleft]: the sleep of a
    comment that is not the first raises and nothing else happens, or the
    comment is posted, counted and recorded. *)
Lemma worker_task_spec is_first c st w ctl st' w' :
  worker_task env is_first c st w = (ctl, st', w') ->
  let cookies := default ∅ (session_cookies st) in
  let tok := default "" (session_csrf_token st) in
  let delay := uniform_value env (random_calls w) (wait_range st).1 (wait_range st).2 in
  let w_drawn := (random_uniform env (wait_range st).1 (wait_range st).2 w).2 in
  (is_first = false /\ sleep_raises env delay = true /\
   ctl = Raise /\ st' = st /\ w' = emit (EvSleepRaised delay) w_drawn) \/
  ((is_first = true \/ sleep_raises env delay = false) /\
   ctl = Continue false /\
   exists s w1,
     post_comment_to_reddit env c cookies tok
       (if is_first then w else emit (EvSleep delay) w_drawn) = (s, w1) /\
     trace w' = trace w1 /\
     posting_history st' =
       record_history (make_result c s (utc_now_iso env (clock_calls w1)))
         (posting_history st) /\
     total_success st' = (if s then S (total_success st) else total_success st) /\
     total_fail st' = (if s then total_fail st else S (total_fail st)) /\
     total_received st' = total_received st /\
     comment_queue st' = comment_queue st /\
     wait_range st' = wait_range st /\
     currently_posting st' = None).
Proof.
  unfold worker_task, random_uniform, time_sleep. simpl.
  destruct is_first; [|destruct (sleep_raises env _) eqn:Hs];
    try (intros [= <- <- <-]; left; done);
    destruct (post_comment_to_reddit _ _ _ _ _) as [s w1] eqn:E;
    intros [= <- <- <-]; right; (split; [auto|]); (split; [done|]);
    exists s, w1; (split; [done|]); by destruct s.
Qed.

Lemma dequeued_app a b : dequeued (a ++ b) = dequeued a ++ dequeued b.
Proof. apply flat_map_app. Qed.

Lemma sleeps_app a b : sleeps (a ++ b) = sleeps a ++ sleeps b.
Proof. apply flat_map_app. Qed.

Lemma invoked_app a b : invoked (a ++ b) = invoked a ++ invoked b.
Proof. apply flat_map_app. Qed.

Lemma http_posts_app a b : http_posts (a ++ b) = http_posts a ++ http_posts b.
Proof. apply flat_map_app. Qed.

Lemma at_most_one_post_quiet posts :
  at_most_one_post posts ->
  dequeued posts = [] /\ sleeps posts = [] /\ invoked posts = [].
Proof. by intros [->|(t & r & ck & tok & txt & ->)]. Qed.

Lemma executor_invoked c cookies tok w s w' :
  post_comment_to_reddit env c cookies tok w = (s, w') ->
  invoked (trace w') = invoked (trace w) ++ [c].
Proof.
  intros (posts & -> & Hp & _)%executor_effects.
  apply at_most_one_post_quiet in Hp as (_ & _ & Hi).
  rewrite invoked_app. simpl. by rewrite Hi.
Qed.

(** The three attempts of the drain-now path, spelled out: [a1], [a2] and
    [a3] are the first, second and third call of the executor, each later
    one made after the two-second sleep that follows a failure. *)
Lemma keepalive_attempts_unfold c cookies tok w :
  let a1 := post_comment_to_reddit env c cookies tok w in
  let a2 := post_comment_to_reddit env c cookies tok (emit (EvSleep (2 # 1)) a1.2) in
  let a3 := post_comment_to_reddit env c cookies tok (emit (EvSleep (2 # 1)) a2.2) in
  keepalive_attempts env (seq 1 3) c cookies tok w =
    if a1.1 then (true, a1.2)
    else if a2.1 then (true, a2.2)
    else if a3.1 then (true, a3.2)
    else (false, emit (EvSleep (2 # 1)) a3.2).
Proof.
  simpl.
  destruct (post_comment_to_reddit env c cookies tok w) as [[] w1]; simpl; [done|].
  destruct (post_comment_to_reddit env c cookies tok _) as [[] w2]; simpl; [done|].
  by destruct (post_comment_to_reddit env c cookies tok _) as [[] w3].
Qed.

(** The loop body of the drain-now path, after the [popleft]. *)
Lemma keepalive_task_spec c posted failed cookies tok st w p f st' w' :
  keepalive_task env c posted failed cookies tok st w = (p, f, st', w') ->
  exists s w1,
    keepalive_attempts env (seq 1 3) c cookies tok w = (s, w1) /\
    p = (if s then S posted else posted) /\
    f = (if s then failed else S failed) /\
    posting_history st' =
      record_history (make_result c s (utc_now_iso env (clock_calls w1)))
        (posting_history st) /\
    total_success st' = (if s then S (total_success st) else total_success st) /\
    total_fail st' = (if s then total_fail st else S (total_fail st)) /\
    total_received st' = total_received st /\
    comment_queue st' = comment_queue st /\
    exists gap, trace w' = trace w1 ++ gap /\
      (gap = [] \/ exists d, gap = [EvSleep d]).
Proof.
  unfold keepalive_task.
  destruct (keepalive_attempts _ _ _ _ _ _) as [s w1] eqn:E.
  unfold record_result, now_iso, queue_is_empty. simpl.
  intros [= <- <- <- <-]. exists s, w1.
  split; [done|]. split; [done|]. split; [done|].
  repeat (split; [by destruct s|]).
  destruct s; simpl; destruct (comment_queue st); simpl;
    eauto using app_nil_r.
Qed.

End Bodies.

(** ** The idle worker *)

Section Idle.

Variable env : oracle.

Lemma set_threads_same st ts : threads st = ts -> set_threads ts st = st.
Proof. intros <-. by destruct st. Qed.

(** A pass of the running worker over an empty queue changes nothing and
    sleeps one second. *)
Lemma idle_worker_pass st w t b :
  comment_queue st = [] -> worker_running st = true ->
  threads st !! t = Some (Alive b) ->
  worker_pass env t st w = (st, emit (EvSleep 1) w).
Proof.
  intros Hq Hr Ht. unfold worker_pass. rewrite Ht, worker_loop_one.
  unfold worker_iteration, queue_is_empty. rewrite Hq, Hr. simpl. f_equal.
  apply set_threads_same. by rewrite list_insert_id.
Qed.

Lemma idle_worker_passes n st w t b :
  comment_queue st = [] -> worker_running st = true ->
  threads st !! t = Some (Alive b) ->
  exists w',
    run env (replicate n (OpWorker t)) (st, w) = (st, w') /\
    trace w' = trace w ++ replicate n (EvSleep 1).
Proof.
  intros Hq Hr Ht. revert w. induction n as [|n IH]; intros w.
  - exists w. by rewrite app_nil_r.
  - cbn [replicate]. rewrite run_cons. cbn [step].
    rewrite (idle_worker_pass st w t b) by done.
    destruct (IH (emit (EvSleep 1) w)) as (w' & Hrun & Htr).
    exists w'. split; [done|]. rewrite Htr, trace_emit, <- app_assoc. done.
Qed.

(** The pass in which a new worker takes the only pending comment leaves
    the queue empty and the worker as it was, but for [is_first]. *)
Lemma last_task_pass st w c :
  comment_queue st = [c] -> threads st = [Alive true] ->
  comment_queue (worker_pass env 0 st w).1 = [] /\
  lifecycle (worker_pass env 0 st w).1
    = ([Alive false], worker_thread st, worker_running st).
Proof.
  intros Hq Ht. unfold worker_pass. rewrite Ht. cbn [lookup list_lookup].
  rewrite worker_loop_one. unfold worker_iteration. rewrite Hq.
  destruct (worker_task env true c (set_comment_queue [] st) (emit (EvDequeue c) w))
    as [[ctl st'] w'] eqn:E.
  destruct (worker_task_lifecycle env _ _ _ _ _ _ _ E) as [Hl _].
  apply worker_task_spec in E
    as [(? & _)|(_ & -> & _ & _ & _ & _ & _ & _ & _ & _ & Hq' & _)]; [done|].
  injection Hl as Ht' Hw Hr. unfold lifecycle. simpl in *.
  by rewrite Hq', Hr, Hw, Ht', Ht.
Qed.

(** After one accepted submission of a single comment and the pass that
    posts it, the queue is empty and the worker is running. *)
Lemma worker_idle_after_first_task :
  let sw := run env [OpSubmit (Some (sample_body [sample_comment] 4 6)); OpWorker 0]
              (initial_state, initial_world) in
  comment_queue sw.1 = [] /\ worker_running sw.1 = true /\
  worker_thread sw.1 = Some 0 /\ threads sw.1 = [Alive false].
Proof.
  cbn [run fold_left]. unfold step.
  destruct (receive_comments env _ initial_state initial_world)
    as [[resp st1] w1] eqn:E.
  rewrite (receive_comments_accepts env _ [sample_comment] sample_cookies "tok")
    in E by done.
  injection E as _ <- <-.
  match goal with
  | |- context [worker_pass env 0 ?st ?w] => set (st0 := st); set (w0 := w)
  end.
  destruct (last_task_pass st0 w0
              (<["id" := comment_id_at env 0]> sample_comment))
    as [Hq Hl]; [reflexivity..|].
  injection Hl as Ht Hw Hr. by rewrite Hq, Hr, Hw, Ht.
Qed.

(** With the flag set and at most the first comment of the session to
    post, the loop is still running after any number of passes. *)
Lemma worker_loop_goes_on fuel is_first st w :
  worker_running st = true ->
  comment_queue st = [] \/ (is_first = true /\ exists c, comment_queue st = [c]) ->
  exists f st' w', worker_loop_from env fuel is_first st w = (Continue f, st', w').
Proof.
  revert is_first st w.
  induction fuel as [|fuel IH]; intros is_first st w Hrun Hq; simpl; [eauto|].
  destruct (worker_iteration env is_first st w) as [[ctl st1] w1] eqn:E.
  destruct (worker_iteration_running _ _ _ _ _ _ _ Hrun E) as [_ Hl].
  assert (Hrun1 : worker_running st1 = true) by (injection Hl as _ _ ->; done).
  unfold worker_iteration, queue_is_empty in E.
  destruct Hq as [Hq|[-> [c Hq]]]; rewrite Hq in E.
  - rewrite Hrun in E. simpl in E. injection E as <- <- <-.
    apply IH; [done|by left].
  - apply worker_task_spec in E
      as [(? & _)|(_ & -> & _ & _ & _ & _ & _ & _ & _ & _ & Hq' & _)]; [done|].
    apply IH; [done|by left].
Qed.

(** C1 (the code does not do this). Once [_ensure_worker] has started the
    worker, the flag [worker_running] stays set, so the test that guards
    the [break] of [_worker_loop] never succeeds. After a single comment was
    submitted and posted, with nobody enqueuing anything further, [n] more
    passes of the worker find the queue empty, sleep one second each, and
    leave the worker alive, whatever [n] is; run on its own from the moment
    it is started, the loop is never left by its [break], and with at most
    one comment pending it is still running after any number of passes; and
    in every state the server reaches no thread ever started has returned
    from [_worker_loop]: each is alive, or an exception has ended it. *)
Theorem worker_loop_never_ends :
  (forall n,
     let sw1 :=
       run env [OpSubmit (Some (sample_body [sample_comment] 4 6)); OpWorker 0]
         (initial_state, initial_world) in
     let sw := run env (replicate n (OpWorker 0)) sw1 in
     comment_queue sw1.1 = [] /\
     comment_queue sw.1 = [] /\ worker_alive sw.1 = true /\
     trace sw.2 = trace sw1.2 ++ replicate n (EvSleep 1)) /\
  (forall st w fuel, (_worker_loop env fuel (spawn_worker st) w).1.1 <> Break) /\
  (forall st w fuel,
     length (comment_queue st) <= 1 ->
     exists is_first st' w',
       _worker_loop env fuel (spawn_worker st) w = (Continue is_first, st', w')) /\
  (forall ops,
     Forall (fun th => th <> Finished)
       (threads (run env ops (initial_state, initial_world)).1)).
Proof.
  split; [|split; [|split]].
  - intros n sw1 sw. subst sw.
    destruct worker_idle_after_first_task as (Hq & Hr & Hw & Ht).
    fold sw1 in Hq, Hr, Hw, Ht.
    destruct sw1 as [st1 w1]. cbn [fst snd] in *.
    destruct (idle_worker_passes n st1 w1 0 false Hq Hr) as (w' & -> & Htr);
      [by rewrite Ht|].
    cbn [fst snd]. unfold worker_alive. rewrite Hw, Ht. done.
  - intros st w fuel.
    destruct (_worker_loop env fuel (spawn_worker st) w) as [[ctl st'] w'] eqn:E.
    by apply worker_loop_from_running in E as [? _].
  - intros st w fuel Hlen. apply worker_loop_goes_on; [done|].
    simpl. destruct (comment_queue st) as [|c [|c' rest]]; simpl in Hlen;
      [by left|right; eauto|lia].
  - intros ops.
    destruct (reachable_inv env ops)
      as [[-> _]|(_ & earlier & th & -> & _ & Hdead & Hth)]; [constructor|].
    apply Forall_app. split; [|by repeat constructor].
    eapply Forall_impl; [exact Hdead|]. by intros x ->.
Qed.

End Idle.

(** ** Drain-now retries *)

Section Retries.

Variable env : oracle.

Lemma invoked_emit_sleep d w :
  invoked (trace (emit (EvSleep d) w)) = invoked (trace w).
Proof. rewrite trace_emit, invoked_app. apply app_nil_r. Qed.

Lemma invoked_gap tr gap :
  gap = [] \/ (exists d, gap = [EvSleep d]) ->
  invoked (tr ++ gap) = invoked tr.
Proof.
  rewrite invoked_app. intros [->|[d ->]]; apply app_nil_r.
Qed.

(** C3. For a dequeued task the drain-now path calls the executor [n]
    times, where [n] is the position of the first successful call among
    three, or three when none succeeds; the task's outcome is that of the
    last call made and is what gets recorded and counted. Two failures
    followed by a success give a recorded success after exactly three
    calls; three failures give a recorded failure after exactly three. *)
Theorem drain_now_retry_policy c cookies tok posted failed st w :
  let a1 := post_comment_to_reddit env c cookies tok w in
  let a2 := post_comment_to_reddit env c cookies tok (emit (EvSleep (2 # 1)) a1.2) in
  let a3 := post_comment_to_reddit env c cookies tok (emit (EvSleep (2 # 1)) a2.2) in
  let n := if a1.1 then 1 else if a2.1 then 2 else 3 in
  exists p f st' w' s w1,
    keepalive_task env c posted failed cookies tok st w = (p, f, st', w') /\
    keepalive_attempts env (seq 1 3) c cookies tok w = (s, w1) /\
    1 <= n <= 3 /\
    invoked (trace w') = invoked (trace w) ++ replicate n c /\
    s = a1.1 || a2.1 || a3.1 /\
    last (posting_history st')
      = Some (make_result c s (utc_now_iso env (clock_calls w1))) /\
    total_success st' = (if s then S (total_success st) else total_success st) /\
    total_fail st' = (if s then total_fail st else S (total_fail st)) /\
    p = (if s then S posted else posted) /\
    f = (if s then failed else S failed) /\
    (a1.1 = false -> a2.1 = false -> a3.1 = true ->
     s = true /\ invoked (trace w') = invoked (trace w) ++ [c; c; c] /\
     r_success <$> last (posting_history st') = Some true /\
     total_success st' = S (total_success st)) /\
    (a1.1 = false -> a2.1 = false -> a3.1 = false ->
     s = false /\ invoked (trace w') = invoked (trace w) ++ [c; c; c] /\
     r_success <$> last (posting_history st') = Some false /\
     total_fail st' = S (total_fail st)).
Proof.
  intros a1 a2 a3 n.
  destruct (keepalive_task env c posted failed cookies tok st w)
    as [[[p f] st'] w'] eqn:E.
  destruct (keepalive_task_spec _ _ _ _ _ _ _ _ _ _ _ _ E)
    as (s & w1 & Ha & Hp & Hf & Hh & Hs & Hfl & _ & _ & gap & Ht & Hgap).
  exists p, f, st', w', s, w1.
  assert (Hinv : invoked (trace w') = invoked (trace w1))
    by (rewrite Ht; by apply invoked_gap).
  assert (Hcalls : s = a1.1 || a2.1 || a3.1 /\
                   invoked (trace w1) = invoked (trace w) ++ replicate n c).
  { rewrite keepalive_attempts_unfold in Ha. fold a1 a2 a3 in Ha.
    pose proof (executor_invoked env c cookies tok w a1.1 a1.2) as H1.
    pose proof (executor_invoked env c cookies tok
                  (emit (EvSleep (2 # 1)) a1.2) a2.1 a2.2) as H2.
    pose proof (executor_invoked env c cookies tok
                  (emit (EvSleep (2 # 1)) a2.2) a3.1 a3.2) as H3.
    rewrite invoked_emit_sleep in H2, H3.
    specialize (H1 (surjective_pairing _)).
    specialize (H2 (surjective_pairing _)).
    specialize (H3 (surjective_pairing _)).
    subst n. destruct a1.1; [injection Ha as <- <-; by rewrite H1|].
    destruct a2.1; [injection Ha as <- <-; by rewrite H2, H1, <- app_assoc|].
    destruct a3.1; injection Ha as <- <-; rewrite ?invoked_emit_sleep;
      by rewrite H3, H2, H1, <- !app_assoc. }
  destruct Hcalls as [Hs3 Hn]. rewrite Hinv, Hh, record_history_last.
  split; [done|]. split; [done|].
  split; [subst n; destruct a1.1, a2.1; lia|].
  split; [done|]. split; [done|]. split; [done|]. split; [done|].
  split; [done|]. split; [done|]. split; [done|].
  split; intros E1 E2 E3; subst n; rewrite E1, E2, E3 in *; simpl in *;
    subst s; done.
Qed.

End Retries.

(** The retry policy at work: the reply sequence 500, exception, 200 ends in
    a success after three calls. *)
Lemma drain_now_retry_policy_witness :
  (keepalive_attempts flaky_env (seq 1 3) sample_comment sample_cookies "tok"
     initial_world).1 = true /\
  invoked (trace (keepalive_task flaky_env sample_comment 0 0 sample_cookies
                    "tok" initial_state initial_world).2)
    = [sample_comment; sample_comment; sample_comment].
Proof.
  destruct (drain_now_retry_policy flaky_env sample_comment sample_cookies "tok"
              0 0 initial_state initial_world)
    as (p & f & st' & w' & s & w1 & E & Ea & _ & _ & _ & _ & _ & _ & _ & _ & H & _).
  destruct H as (Hs & Hi & _); [reflexivity..|].
  rewrite E, Ea. simpl. by rewrite Hs, Hi.
Defined.

(** ** Payloads without destination or text *)

Section Malformed.

Variable env : oracle.

Lemma http_posts_emit_sleep d w :
  http_posts (trace (emit (EvSleep d) w)) = http_posts (trace w).
Proof. rewrite trace_emit, http_posts_app. apply app_nil_r. Qed.

Lemma http_posts_emit_invoke c ck tok w :
  http_posts (trace (emit (EvInvoke c ck tok) w)) = http_posts (trace w).
Proof. rewrite trace_emit, http_posts_app. apply app_nil_r. Qed.

Lemma http_posts_gap tr gap :
  gap = [] \/ (exists d, gap = [EvSleep d]) ->
  http_posts (tr ++ gap) = http_posts tr.
Proof.
  rewrite http_posts_app. intros [->|[d ->]]; apply app_nil_r.
Qed.

(** C10, as the code has it. A task whose [url] or [ai_comment] is
    missing or empty is taken into the queue like any other, and the
    executor returns [False] for it without sending a request. A consumer that executes it
    records it as failed, [success] being [False] in the record, and counts
    it in [total_fail]: the drain-now path does so for every such task,
    after its three calls; the worker does so when the task is the first of
    its session or the sleep before it returns. When that sleep raises, the
    worker's loop is left with the task dequeued and nothing recorded or
    counted. *)
Theorem malformed_payload_is_recorded_as_failed c :
  missing_or_empty c "url" \/ missing_or_empty c "ai_comment" ->
  (forall j cookies tok st w,
     j_comments j = Some [c] -> j_cookies j = Some cookies -> cookies <> ∅ ->
     j_csrf_token j = Some tok -> tok <> "" ->
     is_bad_request (receive_comments env (Some j) st w).1.1 = false) /\
  (forall cookies tok w,
     post_comment_to_reddit env c cookies tok w
       = (false, emit (EvInvoke c cookies tok) w)) /\
  (forall is_first rest st w,
     comment_queue st = c :: rest ->
     let delay :=
       uniform_value env (random_calls w) (wait_range st).1 (wait_range st).2 in
     (is_first = true \/ sleep_raises env delay = false ->
      exists st' w' r,
        worker_iteration env is_first st w = (Continue false, st', w') /\
        last (posting_history st') = Some r /\
        r_success r = false /\
        r = make_result c false (r_posted_at r) /\
        total_fail st' = S (total_fail st) /\
        total_success st' = total_success st /\
        http_posts (trace w') = http_posts (trace w)) /\
     (is_first = false -> sleep_raises env delay = true ->
      exists w',
        worker_iteration env is_first st w
          = (Raise, set_comment_queue rest st, w') /\
        invoked (trace w') = invoked (trace w))) /\
  (forall posted failed cookies tok st w,
     exists st' w' r,
       keepalive_task env c posted failed cookies tok st w
         = (posted, S failed, st', w') /\
       last (posting_history st') = Some r /\
       r_success r = false /\
       r = make_result c false (r_posted_at r) /\
       total_fail st' = S (total_fail st) /\
       total_success st' = total_success st /\
       http_posts (trace w') = http_posts (trace w)).
Proof.
  intros Hbad. split; [|split; [|split]].
  - intros j cookies tok st w Hc Hk Hkne Ht Htne.
    by rewrite (receive_comments_accepts env j [c] cookies tok st w).
  - intros cookies tok w. by apply executor_rejects.
  - intros is_first rest st w Hq delay. unfold worker_iteration. rewrite Hq.
    destruct (worker_task _ _ _ _ _) as [[ctl st'] w'] eqn:E.
    apply worker_task_spec in E. cbn zeta in E.
    change (random_calls (emit (EvDequeue c) w)) with (random_calls w) in E.
    change (wait_range (set_comment_queue rest st)) with (wait_range st) in E.
    fold delay in E. split.
    + intros Hok.
      destruct E as [(-> & Hr & _)|(_ & -> & s & w1 & Hpost & Ht & Hh & Hs & Hf & _)].
      { destruct Hok as [|Hok]; [done|]. by rewrite Hok in Hr. }
      rewrite executor_rejects in Hpost by done. injection Hpost as <- <-.
      eexists st', w', _. split; [done|].
      rewrite Hh, record_history_last, Hf, Hs, Ht, http_posts_emit_invoke.
      repeat (split; [done|]).
      destruct is_first; unfold emit, random_uniform; simpl;
        rewrite !http_posts_app; simpl; by rewrite ?app_nil_r.
    + intros -> Hr.
      destruct E as [(_ & _ & -> & -> & ->)|([|Hok] & _)];
        [|done|by rewrite Hok in Hr].
      eexists. split; [done|].
      unfold emit, random_uniform. simpl. rewrite !invoked_app. simpl.
      by rewrite !app_nil_r.
  - intros posted failed cookies tok st w.
    destruct (keepalive_task _ _ _ _ _ _ _ _) as [[[p f] st'] w'] eqn:E.
    apply keepalive_task_spec in E
      as (s & w1 & Ha & -> & -> & Hh & Hs & Hf & _ & _ & gap & Ht & Hgap).
    rewrite keepalive_attempts_unfold in Ha.
    rewrite !executor_rejects in Ha by done. simpl in Ha.
    injection Ha as <- <-.
    eexists st', w', _. split; [done|].
    rewrite Hh, record_history_last, Hf, Hs, Ht, http_posts_gap by done.
    repeat (split; [done|]).
    by rewrite !http_posts_emit_sleep, !http_posts_emit_invoke,
      !http_posts_emit_sleep, !http_posts_emit_invoke,
      !http_posts_emit_sleep, !http_posts_emit_invoke.
Qed.

End Malformed.

(** A comment without [url] that a new worker takes first is recorded as
    failed. *)
Lemma malformed_payload_witness :
  exists st' w' r,
    worker_iteration flaky_env true
      (set_comment_queue [sample_comment_no_url] initial_state) initial_world
      = (Continue false, st', w') /\
    last (posting_history st') = Some r /\ r_success r = false /\
    total_fail st' = 1.
Proof.
  destruct (malformed_payload_is_recorded_as_failed flaky_env
              sample_comment_no_url) as (_ & _ & H & _).
  - left. left. reflexivity.
  - destruct (H true [] (set_comment_queue [sample_comment_no_url] initial_state)
                initial_world eq_refl) as [H1 _].
    destruct H1 as (st' & w' & r & E & Hl & Hs & _ & Hf & _); [by left|].
    exists st', w', r. by rewrite Hf.
Defined.

(** C10 fails as stated: a comment without [url] is accepted together with
    a well-formed one and with waits of -1. The worker posts the first
    comment, dequeues the second, and is ended by the [ValueError] of
    [time.sleep]: the second comment is gone from the queue, no record of
    it is in the history, [total_fail] has not counted it, and no worker is
    alive to do so. *)
Lemma malformed_task_can_go_unrecorded :
  let body := sample_body [sample_comment; sample_comment_no_url] (-1) (-1) in
  let sw := run steady_env ops_negative_waits (initial_state, initial_world) in
  let good := <["id" := "00000001"]> sample_comment in
  let bad := <["id" := "00000002"]> sample_comment_no_url in
  missing_or_empty bad "url" /\
  is_bad_request (receive_comments steady_env (Some body) initial_state
                    initial_world).1.1 = false /\
  dequeued (trace sw.2) = [good; bad] /\
  invoked (trace sw.2) = [good] /\
  comment_queue sw.1 = [] /\
  posting_history sw.1 = [make_result good true sample_now] /\
  total_fail sw.1 = 0 /\
  threads sw.1 = [Raised] /\
  ~ (exists r, r ∈ posting_history sw.1 /\ r_id r = get_str bad "id").
Proof.
  assert (Hh : posting_history
                 (run steady_env ops_negative_waits (initial_state, initial_world)).1
               = [make_result (<["id" := "00000001"]> sample_comment) true sample_now])
    by (vm_compute; reflexivity).
  cbv zeta. rewrite Hh.
  repeat split; try (vm_compute; reflexivity).
  - left. reflexivity.
  - intros (r & Hr & Hid). apply list_elem_of_singleton in Hr as ->.
    vm_compute in Hid. discriminate.
Qed.

(** ** Pacing of the worker *)

Section Pacing.

Variable env : oracle.

Lemma worker_iteration_lifecycle is_first st w ctl st' w' :
  worker_iteration env is_first st w = (ctl, st', w') ->
  lifecycle st' = lifecycle st.
Proof.
  unfold worker_iteration.
  destruct (comment_queue st) as [|c rest].
  - by destruct (_ && _); intros [= _ <- _].
  - intros E. by apply worker_task_lifecycle in E as [-> _].
Qed.













End Pacing.



(** ** Bounded history *)

Section History.

Context {A : Type}.
Implicit Types l r : list A.

Lemma last_n_all n l : length l <= n -> last_n n l = l.
Proof. intros H. unfold last_n. by replace (length l - n) with 0 by lia. Qed.

Lemma length_last_n n l : length (last_n n l) = Nat.min n (length l).
Proof. unfold last_n. rewrite length_drop. lia. Qed.

Lemma last_n_app_last_n n l r :
  last_n n (last_n n l ++ r) = last_n n (l ++ r).
Proof.
  destruct (Nat.le_gt_cases (length l) n) as [Hle|Hgt].
  { by rewrite (last_n_all n l). }
  unfold last_n at 1 3.
  rewrite !length_app, length_last_n.
  replace (Nat.min n (length l) + length r - n) with (length r) by lia.
  replace (length l + length r - n) with ((length l - n) + length r) by lia.
  rewrite <- drop_drop. f_equal. unfold last_n.
  rewrite drop_app_le by lia. done.
Qed.

End History.

Lemma record_history_last_n r h :
  length h <= MAX_HISTORY ->
  record_history r h = last_n MAX_HISTORY (h ++ [r]).
Proof.
  intros Hle. unfold record_history, last_n.
  rewrite length_app. simpl.
  destruct (Nat.ltb_spec MAX_HISTORY (length h + 1)) as [Hlt|Hge].
  - replace (length h + 1 - MAX_HISTORY) with 1 by lia.
    by destruct h.
  - by replace (length h + 1 - MAX_HISTORY) with 0 by lia.
Qed.

(** ** Service order *)

Section Service.

Variable env : oracle.

Lemma first_executions_app f a b :
  first_executions f (a ++ b)
    = first_executions f a ++ first_executions (fresh_after f a) b.
Proof.
  revert f. induction a as [|e a IH]; intros f; [done|].
  destruct e; simpl; try apply IH.
  destruct f; simpl; by rewrite IH.
Qed.

Lemma fresh_after_app f a b :
  fresh_after f (a ++ b) = fresh_after (fresh_after f a) b.
Proof.
  revert f. induction a as [|e a IH]; intros f; [done|].
  destruct e; simpl; apply IH.
Qed.

Lemma raised_app a b : raised (a ++ b) = raised a ++ raised b.
Proof. apply flat_map_app. Qed.

(** Events among which nothing is dequeued start no execution. *)
Lemma no_dequeue_quiet tr :
  dequeued tr = [] ->
  first_executions false tr = [] /\ fresh_after false tr = false.
Proof.
  induction tr as [|e tr IH]; [done|].
  destruct e; simpl; try done.
Qed.

Lemma at_most_one_post_no_raise posts :
  at_most_one_post posts -> raised posts = [].
Proof. by intros [->|(t & r & ck & tok & txt & ->)]. Qed.

Lemma served_refl st w : served st w st w [] [].
Proof.
  unfold served. rewrite !app_nil_r.
  repeat split; try done; try constructor; simpl; try lia.
  by rewrite last_n_all.
Qed.

Lemma served_trans st w st1 w1 st2 w2 new1 rs1 new2 rs2 :
  served st w st1 w1 new1 rs1 -> served st1 w1 st2 w2 new2 rs2 ->
  served st w st2 w2 (new1 ++ new2) (rs1 ++ rs2).
Proof.
  intros (Ht1 & Hf1 & Hl1 & Hfr1 & Hr1 & Hc1 & Hh1)
         (Ht2 & Hf2 & Hl2 & Hfr2 & Hr2 & Hc2 & Hh2).
  unfold served.
  rewrite first_executions_app, fresh_after_app, Hfr1, dequeued_app, raised_app.
  split; [by rewrite Ht2, Ht1, app_assoc|].
  split; [by apply sublist_app|].
  split; [rewrite !length_app; lia|].
  split; [done|].
  split; [by apply Forall2_app|].
  split; [rewrite Hc2, Hc1, length_app; lia|].
  intros Hle. destruct (Hh1 Hle) as [He1 Hb1]. destruct (Hh2 Hb1) as [He2 Hb2].
  split; [|done]. by rewrite He2, He1, last_n_app_last_n, app_assoc.
Qed.

(** A stretch in which nothing is dequeued and nothing recorded. *)
Lemma served_quiet st w st' w' new :
  trace w' = trace w ++ new -> dequeued new = [] -> raised new = [] ->
  posting_history st' = posting_history st ->
  completions st' = completions st ->
  served st w st' w' new [].
Proof.
  intros Ht Hd Hr Hh Hc. unfold served.
  destruct (no_dequeue_quiet new Hd) as [-> ->].
  rewrite Hd, Hr, Hh, Hc, app_nil_r.
  repeat split; try done; try constructor; simpl; try lia.
  by rewrite last_n_all.
Qed.

(** One task taken off the queue, executed and recorded. *)
Lemma served_task st w st' w' c pre cookies tok rest s ts :
  trace w' = trace w ++ EvDequeue c :: pre ++ EvInvoke c cookies tok :: rest ->
  pre = [] \/ (exists d, pre = [EvSleep d]) ->
  dequeued rest = [] -> raised rest = [] ->
  posting_history st' = record_history (make_result c s ts) (posting_history st) ->
  completions st' = S (completions st) ->
  served st w st' w' (EvDequeue c :: pre ++ EvInvoke c cookies tok :: rest)
    [make_result c s ts].
Proof.
  intros Ht Hpre Hd Hr Hh Hc. unfold served.
  destruct (no_dequeue_quiet rest Hd) as [Hf Hfr].
  split; [done|].
  assert (Hdq : dequeued (EvDequeue c :: pre ++ EvInvoke c cookies tok :: rest) = [c]).
  { destruct Hpre as [->|[d ->]]; simpl; by rewrite Hd. }
  assert (Hfe : first_executions false
                  (EvDequeue c :: pre ++ EvInvoke c cookies tok :: rest) = [c]).
  { destruct Hpre as [->|[d ->]]; simpl; by rewrite Hf. }
  assert (Hra : raised (EvDequeue c :: pre ++ EvInvoke c cookies tok :: rest) = []).
  { destruct Hpre as [->|[d ->]]; simpl; by rewrite Hr. }
  rewrite Hdq, Hfe, Hra.
  split; [done|]. split; [done|].
  split; [destruct Hpre as [->|[d ->]]; simpl; by rewrite Hfr|].
  split; [repeat constructor; eauto|].
  split; [rewrite Hc; simpl; lia|].
  intros Hle. rewrite Hh, record_history_last_n by done.
  split; [done|]. rewrite length_last_n. lia.
Qed.

(** One task taken off the queue and dropped by the sleep that raised. *)
Lemma served_dropped st w st' w' c d :
  trace w' = trace w ++ [EvDequeue c; EvSleepRaised d] ->
  posting_history st' = posting_history st ->
  completions st' = completions st ->
  served st w st' w' [EvDequeue c; EvSleepRaised d] [].
Proof.
  intros Ht Hh Hc. unfold served. simpl. rewrite Hh, Hc, app_nil_r.
  split; [done|]. split; [apply sublist_nil_l|].
  repeat split; try done; try constructor; try lia.
  by rewrite last_n_all.
Qed.

Lemma completions_outcome (s : bool) st st' :
  total_success st' = (if s then S (total_success st) else total_success st) ->
  total_fail st' = (if s then total_fail st else S (total_fail st)) ->
  completions st' = S (completions st).
Proof. unfold completions. intros -> ->. destruct s; lia. Qed.

(** The events of the three attempts start with the call of the executor on
    the task and contain no [popleft] and no sleep that raised. *)
Lemma keepalive_attempts_trace c cookies tok w s w1 :
  keepalive_attempts env (seq 1 3) c cookies tok w = (s, w1) ->
  exists rest,
    trace w1 = trace w ++ EvInvoke c cookies tok :: rest /\
    dequeued rest = [] /\ raised rest = [].
Proof.
  rewrite keepalive_attempts_unfold.
  set (a1 := post_comment_to_reddit env c cookies tok w).
  set (a2 := post_comment_to_reddit env c cookies tok (emit (EvSleep (2 # 1)) a1.2)).
  set (a3 := post_comment_to_reddit env c cookies tok (emit (EvSleep (2 # 1)) a2.2)).
  destruct (executor_effects env c cookies tok w a1.1 a1.2 (surjective_pairing _))
    as (p1 & H1 & Hp1 & _).
  destruct (executor_effects env c cookies tok _ a2.1 a2.2 (surjective_pairing _))
    as (p2 & H2 & Hp2 & _).
  destruct (executor_effects env c cookies tok _ a3.1 a3.2 (surjective_pairing _))
    as (p3 & H3 & Hp3 & _).
  pose proof (at_most_one_post_no_raise _ Hp1) as Hr1.
  pose proof (at_most_one_post_no_raise _ Hp2) as Hr2.
  pose proof (at_most_one_post_no_raise _ Hp3) as Hr3.
  apply at_most_one_post_quiet in Hp1 as [Hq1 _].
  apply at_most_one_post_quiet in Hp2 as [Hq2 _].
  apply at_most_one_post_quiet in Hp3 as [Hq3 _].
  fold a1 in H1, H2. fold a2 in H2, H3. fold a3 in H3.
  rewrite trace_emit in H2, H3. rewrite H1 in H2. rewrite H2 in H3.
  destruct a1.1; [intros [= _ <-]; eauto|].
  destruct a2.1.
  { intros [= _ <-]. rewrite H2, <- !app_assoc. simpl.
    eexists. split; [reflexivity|]. rewrite dequeued_app, raised_app. simpl.
    by rewrite Hq1, Hq2, Hr1, Hr2. }
  assert (H3' : exists rest, trace a3.2 = trace w ++ EvInvoke c cookies tok :: rest
                             /\ dequeued rest = [] /\ raised rest = []).
  { rewrite H3, <- !app_assoc. simpl.
    eexists. split; [reflexivity|]. rewrite !dequeued_app, !raised_app. simpl.
    rewrite ?dequeued_app, ?raised_app. simpl.
    by rewrite Hq1, Hq2, Hq3, Hr1, Hr2, Hr3. }
  destruct H3' as (rest & Hr & Hd & Hra).
  destruct a3.1; intros [= _ <-]; [eauto|].
  rewrite trace_emit, Hr, <- app_assoc. simpl.
  eexists. split; [reflexivity|]. rewrite dequeued_app, raised_app. simpl.
  by rewrite Hd, Hra.
Qed.

Lemma fifo_refl st : fifo st st [] [].
Proof. unfold fifo. by rewrite app_nil_r. Qed.

Lemma fifo_trans st st1 st2 new1 new2 arr1 arr2 :
  fifo st st1 new1 arr1 -> fifo st1 st2 new2 arr2 ->
  fifo st st2 (new1 ++ new2) (arr1 ++ arr2).
Proof.
  unfold fifo. intros H1 H2.
  by rewrite dequeued_app, <- app_assoc, H2, !app_assoc, H1.
Qed.

(** One pass of the worker loop. *)
Lemma worker_iteration_served is_first st w ctl st' w' :
  worker_iteration env is_first st w = (ctl, st', w') ->
  exists new rs, served st w st' w' new rs /\ fifo st st' new [].
Proof.
  unfold worker_iteration. intros H.
  destruct (comment_queue st) as [|c rest] eqn:Hq.
  - exists [EvSleep 1], [].
    destruct (queue_is_empty st && negb (worker_running st));
      injection H as _ <- <-; (split; [by apply served_quiet|]);
      unfold fifo; by rewrite app_nil_r.
  - apply worker_task_spec in H. cbv zeta in H.
    destruct H as [(-> & Hr & -> & -> & ->)
                  |(Hok & -> & s & w2 & Hpost & Ht & Hh & Hs & Hf & _ & Hcq & _)].
    + eexists [EvDequeue c; EvSleepRaised _], [].
      split; [|unfold fifo; simpl; by rewrite Hq, app_nil_r].
      apply served_dropped; try done. simpl. by rewrite <- app_assoc.
    + pose proof Hpost as Hpost'.
      apply executor_effects in Hpost as (posts & Ht2 & Hposts & _).
      pose proof (at_most_one_post_no_raise _ Hposts) as Hra.
      apply at_most_one_post_quiet in Hposts as [Hd _].
      simpl in Hh, Hs, Hf, Hcq.
      eexists
        (EvDequeue c :: (if is_first then [] else [_]) ++ EvInvoke c _ _ :: posts), _.
      split.
      * eapply served_task; try done.
        -- rewrite Ht, Ht2. destruct is_first; simpl; by rewrite <- !app_assoc.
        -- destruct is_first; eauto.
        -- by eapply completions_outcome.
      * unfold fifo. rewrite Hcq, Hq, app_nil_r.
        destruct is_first; simpl; by rewrite Hd.
Qed.

(** The loop of the drain-now path. *)
Lemma keepalive_loop_served fuel posted failed cookies tok st w p f st' w' :
  keepalive_loop env fuel posted failed cookies tok st w = Some (p, f, st', w') ->
  exists new rs,
    served st w st' w' new rs /\ fifo st st' new [] /\ comment_queue st' = [] /\
    raised new = [].
Proof.
  revert posted failed st w.
  induction fuel as [|fuel IH]; intros posted failed st w; simpl; [done|].
  destruct (comment_queue st) as [|c rest] eqn:Hq.
  - intros [= _ _ <- <-]. exists [], [].
    split; [by apply served_refl|]. split; [apply fifo_refl|done].
  - destruct (keepalive_task _ _ _ _ _ _ _ _) as [[[p1 f1] st1] w1] eqn:E.
    intros Hloop.
    apply keepalive_task_spec in E
      as (s & wa & Ha & _ & _ & Hh & Hs & Hf & _ & Hcq & gap & Ht & Hgap).
    apply keepalive_attempts_trace in Ha as (rest0 & Hta & Hd0 & Hr0).
    simpl in Hh, Hs, Hf, Hcq.
    assert (Hrg : raised (rest0 ++ gap) = []).
    { rewrite raised_app, Hr0. by destruct Hgap as [->|[d ->]]. }
    assert (Hserved : served st w st1 w1
              (EvDequeue c :: [] ++ EvInvoke c cookies tok :: (rest0 ++ gap))
              [make_result c s (utc_now_iso env (clock_calls wa))]).
    { eapply served_task; try done.
      - rewrite Ht, Hta. simpl. by rewrite <- !app_assoc.
      - by left.
      - rewrite dequeued_app, Hd0. by destruct Hgap as [->|[d ->]].
      - by eapply completions_outcome. }
    assert (Hfifo : fifo st st1
              (EvDequeue c :: [] ++ EvInvoke c cookies tok :: (rest0 ++ gap)) []).
    { unfold fifo. rewrite Hcq, Hq, app_nil_r. simpl.
      rewrite dequeued_app, Hd0. by destruct Hgap as [->|[d ->]]. }
    destruct (IH _ _ _ _ Hloop) as (new & rs & Hs2 & Hf2 & Hempty & Hr2).
    eexists _, _. split; [by eapply served_trans|].
    split; [by apply (fifo_trans _ _ _ _ _ [] [] Hfifo)|].
    split; [done|]. rewrite raised_app, Hr2. simpl. by rewrite Hrg.
Qed.

(** The loop of the drain-now path reaches its [break] within one pass more
    than there are pending comments. *)
Lemma keepalive_loop_total fuel posted failed cookies tok st w :
  length (comment_queue st) < fuel ->
  exists r, keepalive_loop env fuel posted failed cookies tok st w = Some r.
Proof.
  revert posted failed st w.
  induction fuel as [|fuel IH]; intros posted failed st w Hlt; [lia|]. simpl.
  destruct (comment_queue st) as [|c rest] eqn:Hq; [eauto|].
  destruct (keepalive_task _ _ _ _ _ _ _ _) as [[[p1 f1] st1] w1] eqn:E.
  apply IH. apply keepalive_task_spec in E
    as (s & wa & _ & _ & _ & _ & _ & _ & _ & Hcq & _).
  rewrite Hcq. simpl in *. lia.
Qed.

Lemma keepalive_total st w : exists r, keepalive env st w = Some r.
Proof.
  unfold keepalive.
  destruct (keepalive_loop_total (S (length (comment_queue st))) 0 0
              (default ∅ (session_cookies st)) (default "" (session_csrf_token st))
              st w) as [[[[p f] st'] w'] ->]; [lia|].
  eauto.
Qed.

Lemma keepalive_served st w r st' w' :
  keepalive env st w = Some (r, st', w') ->
  exists new rs,
    served st w st' w' new rs /\ fifo st st' new [] /\ comment_queue st' = [] /\
    raised new = [].
Proof.
  unfold keepalive.
  destruct (keepalive_loop _ _ _ _ _ _ _ _) as [[[[p f] st1] w1]|] eqn:E; [|done].
  intros [= _ <- <-].
  destruct (keepalive_loop_served _ _ _ _ _ _ _ _ _ _ _ E)
    as (new & rs & (Ht & Hrest) & Hf & Hq & Hr).
  exists new, rs. split; [|done]. split; done.
Qed.

Lemma fifo_fifo_sub st st' new arrived :
  fifo st st' new arrived -> fifo_sub st st' new arrived.
Proof. unfold fifo, fifo_sub. by intros ->. Qed.

Lemma fifo_sub_trans st st1 st2 new1 new2 arr1 arr2 :
  fifo_sub st st1 new1 arr1 -> fifo_sub st1 st2 new2 arr2 ->
  fifo_sub st st2 (new1 ++ new2) (arr1 ++ arr2).
Proof.
  unfold fifo_sub. intros H1 H2.
  rewrite dequeued_app, <- app_assoc.
  transitivity (dequeued new1 ++ comment_queue st1 ++ arr2).
  - by apply sublist_app.
  - rewrite !app_assoc. by apply sublist_app.
Qed.

Lemma tag_ids_nil comments : tag_ids comments [] = [].
Proof. by destruct comments. Qed.

(** A submission dequeues and records nothing; an accepted one appends its
    tagged comments. *)
Lemma receive_comments_served data st w resp st' w' :
  receive_comments env data st w = (resp, st', w') ->
  served st w st' w' [] [] /\
  fifo st st' [] (tag_ids (default [] (data ≫= j_comments)) (response_ids resp)).
Proof.
  unfold receive_comments. intros H.
  assert (Hsame : served st w st w [] [] /\
            fifo st st [] (tag_ids (default [] (data ≫= j_comments)) []))
    by (rewrite tag_ids_nil; split; [by apply served_refl|apply fifo_refl]).
  destruct (body_falsy data); [by injection H as <- <- <-|].
  destruct (bool_decide _); [by injection H as <- <- <-|].
  destruct (_ || _); [by injection H as <- <- <-|].
  rewrite enqueue_all_spec in H. injection H as <- <- <-.
  unfold _ensure_worker.
  destruct (worker_alive _);
    (split;
     [apply served_quiet; simpl; rewrite ?app_nil_r; done
     |unfold fifo; simpl; done]).
Qed.

Lemma worker_pass_served t st w st' w' :
  worker_pass env t st w = (st', w') ->
  exists new rs, served st w st' w' new rs /\ fifo st st' new [].
Proof.
  unfold worker_pass. intros H.
  destruct (threads st !! t) as [[f| |]|];
    try (injection H as <- <-; exists [], [];
         split; [by apply served_refl|apply fifo_refl]).
  rewrite worker_loop_one in H.
  destruct (worker_iteration env f st w) as [[ctl st1] w1] eqn:E.
  destruct (worker_iteration_served _ _ _ _ _ _ E) as (new & rs & Hs & Hf).
  exists new, rs. by injection H as <- <-.
Qed.

Lemma step_served o st w st' w' :
  step env o (st, w) = (st', w') ->
  exists new rs,
    served st w st' w' new rs /\
    fifo_sub st st' new (step_arrivals env o (st, w)) /\
    (is_clear o = false -> fifo st st' new (step_arrivals env o (st, w))).
Proof.
  destruct o as [data|t| |]; simpl; intros H.
  - destruct (receive_comments _ _ _ _) as [[r st1] w1] eqn:E.
    injection H as <- <-.
    destruct (receive_comments_served _ _ _ _ _ _ E) as (Hs & Hf).
    exists [], []. split; [done|]. split; [by apply fifo_fifo_sub|done].
  - destruct (worker_pass_served _ _ _ _ _ H) as (new & rs & Hs & Hf).
    exists new, rs. split; [done|]. split; [by apply fifo_fifo_sub|done].
  - destruct (keepalive _ _ _) as [[[r st1] w1]|] eqn:E.
    + injection H as <- <-.
      destruct (keepalive_served _ _ _ _ _ E) as (new & rs & Hs & Hf & _).
      exists new, rs. split; [done|]. split; [by apply fifo_fifo_sub|done].
    + injection H as <- <-. exists [], [].
      split; [by apply served_refl|].
      split; [apply fifo_fifo_sub|intros _]; apply fifo_refl.
  - injection H as <- <-. exists [], [].
    split; [apply served_quiet; simpl; rewrite ?app_nil_r; done|].
    split; [|done]. unfold fifo_sub. simpl. apply sublist_nil_l.
Qed.

Lemma run_served ops st w st' w' :
  run env ops (st, w) = (st', w') ->
  exists new rs,
    served st w st' w' new rs /\
    fifo_sub st st' new (arrivals env ops (st, w)) /\
    (existsb is_clear ops = false ->
     fifo st st' new (arrivals env ops (st, w))).
Proof.
  revert st w. induction ops as [|o ops IH]; intros st w H.
  - injection H as <- <-. exists [], [].
    split; [by apply served_refl|].
    split; [apply fifo_fifo_sub|intros _]; apply fifo_refl.
  - rewrite run_cons in H. cbn [arrivals].
    destruct (step env o (st, w)) as [st1 w1] eqn:E.
    destruct (step_served _ _ _ _ _ E) as (new1 & rs1 & Hs1 & Hb1 & Hf1).
    destruct (IH _ _ H) as (new2 & rs2 & Hs2 & Hb2 & Hf2).
    exists (new1 ++ new2), (rs1 ++ rs2).
    split; [by eapply served_trans|].
    split; [by eapply fifo_sub_trans|].
    simpl. intros [Hc1 Hc2]%orb_false_elim.
    eapply fifo_trans; eauto.
Qed.

Lemma sublist_full {A} (l1 l2 : list A) :
  sublist l1 l2 -> length l2 <= length l1 -> l1 = l2.
Proof.
  induction 1 as [|x l1 l2 _ IH|x l1 l2 Hsub _]; simpl; intros Hlen.
  - done.
  - f_equal. apply IH. lia.
  - apply sublist_length in Hsub. lia.
Qed.

(** When no sleep has raised, every dequeued comment began execution. *)
Lemma all_executed new :
  sublist (first_executions false new) (dequeued new) ->
  length (dequeued new)
    = length (first_executions false new) + length (raised new) ->
  raised new = [] ->
  first_executions false new = dequeued new.
Proof.
  intros Hsub Hlen Hr. rewrite Hr in Hlen. simpl in Hlen.
  apply sublist_full; [done|lia].
Qed.

End Service.

(** ** Service order and history of whole runs *)

Section Runs.

Variable env : oracle.

(** C7. In a run of submissions, worker passes and drain-now calls, the
    comments are dequeued in the order in which they stand in the queue,
    later arrivals behind them in the order of their submission, and each
    begins execution, or is dropped by a sleep of the worker that raises,
    before the next is dequeued: the dequeued comments are a prefix of the
    pending ones followed by the arrivals, and the executions start in that
    same order, none being left out unless a sleep has raised. So of two
    comments [a] and [b] with [a] ahead of [b], [b] is dequeued only after
    [a] was dequeued and executed or dropped. When the run also clears the
    queue, the comments dequeued and pending are still in that order, with
    the cleared ones left out. *)
Theorem fifo_service_order ops st w :
  exists new,
    let arrived := arrivals env ops (st, w) in
    let st' := (run env ops (st, w)).1 in
    trace (run env ops (st, w)).2 = trace w ++ new /\
    sublist (first_executions false new) (dequeued new) /\
    length (dequeued new)
      = length (first_executions false new) + length (raised new) /\
    (raised new = [] -> first_executions false new = dequeued new) /\
    sublist (dequeued new ++ comment_queue st') (comment_queue st ++ arrived) /\
    (existsb is_clear ops = false ->
     dequeued new ++ comment_queue st' = comment_queue st ++ arrived /\
     dequeued new = take (length (dequeued new)) (comment_queue st ++ arrived) /\
     (forall i j a b,
        i < j ->
        (comment_queue st ++ arrived) !! i = Some a ->
        (comment_queue st ++ arrived) !! j = Some b ->
        j < length (dequeued new) ->
        dequeued new !! i = Some a /\ dequeued new !! j = Some b /\
        (raised new = [] ->
         first_executions false new !! i = Some a /\
         first_executions false new !! j = Some b))).
Proof.
  destruct (run env ops (st, w)) as [st' w'] eqn:E.
  destruct (run_served env _ _ _ _ _ E)
    as (new & rs & (Ht & Hf & Hlen & _) & Hsub & Hfifo).
  exists new. cbn [fst snd]. repeat (split; [done|]).
  split; [by apply all_executed|]. split; [done|].
  intros Hnc. specialize (Hfifo Hnc). unfold fifo in Hfifo.
  set (arrived := arrivals env ops (st, w)) in *.
  assert (Hpre : dequeued new
                 = take (length (dequeued new)) (comment_queue st ++ arrived)).
  { rewrite <- Hfifo. by rewrite take_app_length. }
  repeat (split; [done|]).
  intros i j a b Hij Hi Hj Hlt.
  assert (Hl : forall k x, k < length (dequeued new) ->
               (comment_queue st ++ arrived) !! k = Some x ->
               dequeued new !! k = Some x).
  { intros k x Hk Hx. rewrite Hpre, lookup_take_lt; done. }
  split; [apply Hl; [lia|done]|]. split; [by apply Hl|].
  intros Hr. rewrite (all_executed new Hf Hlen Hr).
  split; [apply Hl; [lia|done]|by apply Hl].
Qed.

(** C9. Over any run that starts with at most [MAX_HISTORY] = 500 entries
    in the history, the history is only appended to, one result per
    executed comment in the order of execution, which is the order of
    dequeuing, and cut from the front: it always is the last 500 entries of
    what it was followed by the results of the run. It never exceeds 500
    entries, and once 500 + k entries have accumulated it holds exactly
    500, the first k being gone. *)
Theorem history_is_bounded ops st w :
  length (posting_history st) <= MAX_HISTORY ->
  exists new rs,
    MAX_HISTORY = 500 /\
    trace (run env ops (st, w)).2 = trace w ++ new /\
    records_of rs (first_executions false new) /\
    sublist (first_executions false new) (dequeued new) /\
    (raised new = [] -> records_of rs (dequeued new)) /\
    completions (run env ops (st, w)).1 = completions st + length rs /\
    length (posting_history (run env ops (st, w)).1) <= MAX_HISTORY /\
    posting_history (run env ops (st, w)).1
      = last_n MAX_HISTORY (posting_history st ++ rs) /\
    (forall k,
       length (posting_history st ++ rs) = MAX_HISTORY + k ->
       length (posting_history (run env ops (st, w)).1) = MAX_HISTORY /\
       posting_history (run env ops (st, w)).1 = drop k (posting_history st ++ rs)).
Proof.
  intros Hle.
  destruct (run env ops (st, w)) as [st' w'] eqn:E.
  destruct (run_served env _ _ _ _ _ E)
    as (new & rs & (Ht & Hf & Hlen & _ & Hr & Hc & Hh) & _ & _).
  destruct (Hh Hle) as [Heq Hb].
  exists new, rs. cbn [fst snd]. repeat (split; [done|]).
  split; [intros Hra; by rewrite <- (all_executed new Hf Hlen Hra)|].
  repeat (split; [done|]).
  intros k Hk. rewrite Heq, length_last_n. split; [lia|].
  unfold last_n. f_equal. lia.
Qed.

End Runs.

(** Two comments submitted together are dequeued, and executed, in the
    order of the submission. *)
Lemma fifo_service_order_witness :
  exists new,
    trace (run flaky_env ops_two_tasks (initial_state, initial_world)).2 = new /\
    first_executions false new = dequeued new /\
    dequeued new
      = [<["id" := "00000000"]> sample_comment;
         <["id" := "00000000"]> sample_comment_no_url].
Proof.
  destruct (fifo_service_order flaky_env ops_two_tasks initial_state initial_world)
    as (new & Ht & _ & _ & Hf & _ & H).
  destruct H as (Hq & _); [reflexivity|].
  exists new. split; [exact Ht|].
  split; [apply Hf; simpl in Ht; rewrite <- Ht; reflexivity|].
  assert (Hempty : comment_queue
            (run flaky_env ops_two_tasks (initial_state, initial_world)).1 = [])
    by reflexivity.
  rewrite Hempty, app_nil_r in Hq. rewrite Hq. reflexivity.
Defined.

(** With the service down, 503 comments drained in one call are all
    recorded as failed, after three calls each, and the history keeps 500
    of the results. *)
Example drain_of_503_keeps_500 :
  let sw :=
    run down_env
      [OpSubmit (Some (sample_body (replicate 503 sample_comment) 0 0));
       OpKeepalive]
      (initial_state, initial_world) in
  length (posting_history sw.1) = 500 /\ total_fail sw.1 = 503 /\
  comment_queue sw.1 = [] /\ length (invoked (trace sw.2)) = 1509.
Proof. vm_compute. repeat split. Qed.

(** From the empty history of a fresh server the bound holds after any
    run. *)
Lemma history_is_bounded_witness :
  length (posting_history
            (run flaky_env ops_two_tasks (initial_state, initial_world)).1)
    <= MAX_HISTORY.
Proof.
  destruct (history_is_bounded flaky_env ops_two_tasks initial_state initial_world)
    as (new & rs & _ & _ & _ & _ & _ & _ & H & _).
  - unfold MAX_HISTORY. simpl. lia.
  - exact H.
Defined.

(** ** Identifiers *)

Section Hex.

Lemma hex_digit_inj x y :
  (0 <= x < 16)%Z -> (0 <= y < 16)%Z ->
  PyStr.hex_digit x = PyStr.hex_digit y -> x = y.
Proof.
  intros Hx Hy.
  assert (Hcx : exists n, n < 16 /\ x = Z.of_nat n)
    by (exists (Z.to_nat x); lia).
  assert (Hcy : exists n, n < 16 /\ y = Z.of_nat n)
    by (exists (Z.to_nat y); lia).
  destruct Hcx as (n & Hn & ->). destruct Hcy as (m & Hm & ->).
  unfold PyStr.hex_digit. rewrite !Nat2Z.id. clear Hx Hy.
  intros H. f_equal.
  do 16 (destruct n as [|n]; [do 16 (destruct m as [|m]; [done|]); lia|]).
  lia.
Qed.

Lemma nibble_range x : (0 <= Z.land x 15 < 16)%Z.
Proof.
  change 15%Z with (Z.ones 4). rewrite Z.land_ones by lia.
  apply Z.mod_pos_bound. lia.
Qed.

Lemma nibble_bits x y :
  Z.land x 15 = Z.land y 15 <->
  (forall j, (0 <= j < 4)%Z -> Z.testbit x j = Z.testbit y j).
Proof.
  change 15%Z with (Z.ones 4). split.
  - intros H j Hj.
    assert (Hb : Z.testbit (Z.land x (Z.ones 4)) j
                 = Z.testbit (Z.land y (Z.ones 4)) j) by (by rewrite H).
    rewrite !Z.land_spec, Z.ones_spec_low in Hb by lia.
    by rewrite !andb_true_r in Hb.
  - intros H. apply Z.bits_inj'. intros j Hj.
    rewrite !Z.land_spec.
    destruct (Z.lt_ge_cases j 4) as [Hlt|Hge].
    + by rewrite H by lia.
    + rewrite Z.ones_spec_high by lia. by rewrite !andb_false_r.
Qed.

(** The [w] digits of a number determine, and are determined by, its [4 w]
    low bits. *)
Lemma hex_fixed_bits w a b :
  PyStr.hex_fixed w a = PyStr.hex_fixed w b <->
  (forall i, (0 <= i < 4 * Z.of_nat w)%Z -> Z.testbit a i = Z.testbit b i).
Proof.
  induction w as [|w IH].
  - simpl. split; [intros _ i Hi; lia|done].
  - cbn [PyStr.hex_fixed]. split.
    + intros [= Hd Hrest].
      apply hex_digit_inj in Hd; try apply nibble_range.
      intros i Hi.
      destruct (Z.lt_ge_cases i (4 * Z.of_nat w)) as [Hlt|Hge].
      * apply IH; [done|lia].
      * pose proof (proj1 (nibble_bits _ _) Hd (i - 4 * Z.of_nat w)%Z) as Hb.
        rewrite !Z.shiftr_spec in Hb by lia.
        replace (i - 4 * Z.of_nat w + 4 * Z.of_nat w)%Z with i in Hb by lia.
        apply Hb. lia.
    + intros H. f_equal.
      * f_equal. apply nibble_bits. intros j Hj.
        rewrite !Z.shiftr_spec by lia. apply H. lia.
      * apply IH. intros i Hi. apply H. lia.
Qed.

Lemma length_hex_fixed w a : String.length (PyStr.hex_fixed w a) = w.
Proof. induction w as [|w IH]; simpl; [done|]. by rewrite IH. Qed.

Lemma take_append s t :
  PyStr.take (String.length s) (s +:+ t) = s.
Proof. induction s as [|c s IH]; simpl; [by destruct t|]. by rewrite IH. Qed.

Lemma time_low_bits u v :
  Uuid.time_low u = Uuid.time_low v <->
  (forall i, (0 <= i < 32)%Z ->
     Z.testbit (Z.shiftr u 96) i = Z.testbit (Z.shiftr v 96) i).
Proof.
  unfold Uuid.time_low. split.
  - intros H i Hi.
    assert (Hb : Z.testbit (Z.land (Z.shiftr u 96) (Z.ones 32)) i
                 = Z.testbit (Z.land (Z.shiftr v 96) (Z.ones 32)) i)
      by (by rewrite H).
    rewrite !Z.land_spec, Z.ones_spec_low in Hb by lia.
    by rewrite !andb_true_r in Hb.
  - intros H. apply Z.bits_inj'. intros i Hi.
    rewrite !Z.land_spec.
    destruct (Z.lt_ge_cases i 32) as [Hlt|Hge].
    + by rewrite H by lia.
    + rewrite Z.ones_spec_high by lia. by rewrite !andb_false_r.
Qed.

Lemma hex_fixed_time_low u :
  PyStr.hex_fixed 8 (Uuid.time_low u) = PyStr.hex_fixed 8 (Z.shiftr u 96).
Proof.
  apply hex_fixed_bits. intros i Hi. unfold Uuid.time_low.
  rewrite Z.land_spec, Z.ones_spec_low by lia. apply andb_true_r.
Qed.

(** [str(u)[:8]] spells the [time_low] field. *)
Lemma uuid_prefix u :
  PyStr.take 8 (Uuid.str u) = PyStr.hex_fixed 8 (Uuid.time_low u).
Proof.
  rewrite hex_fixed_time_low. unfold Uuid.str.
  pose proof (take_append (PyStr.hex_fixed 8 (Z.shiftr u 96))) as H.
  rewrite length_hex_fixed in H. apply H.
Qed.

Lemma uuid_prefix_eq u v :
  PyStr.take 8 (Uuid.str u) = PyStr.take 8 (Uuid.str v) <->
  Uuid.time_low u = Uuid.time_low v.
Proof.
  rewrite !uuid_prefix, !hex_fixed_time_low, hex_fixed_bits, time_low_bits.
  done.
Qed.

Lemma NoDup_map_iff {A B C} (f : A -> B) (g : A -> C) (l : list A) :
  (forall x y, f x = f y <-> g x = g y) ->
  NoDup (map f l) <-> NoDup (map g l).
Proof.
  intros Hfg. induction l as [|a l IH]; simpl; [by split; constructor|].
  rewrite !NoDup_cons, IH.
  assert (Hin : f a ∈ map f l <-> g a ∈ map g l).
  { rewrite !list_elem_of_In, !in_map_iff.
    split; intros (x & Hx & Hi); exists x; (split; [by apply Hfg|done]). }
  by rewrite Hin.
Qed.

End Hex.

Section Identifiers.

Variable env : oracle.

(** Forcing version and variant leaves the first four bytes as drawn. *)
Lemma uuid4_time_low rnd :
  Uuid.time_low (Uuid.uuid4 rnd) = Z.land (Z.shiftr rnd 96) (Z.ones 32).
Proof.
  change (Z.land (Z.shiftr rnd 96) (Z.ones 32)) with (Uuid.time_low rnd).
  apply time_low_bits. intros i Hi. unfold Uuid.uuid4.
  rewrite !Z.shiftr_spec by lia.
  assert (Hc : forall a k, (0 <= a)%Z -> (0 <= k)%Z -> (Z.log2 a + k < i + 96)%Z ->
               Z.testbit (Z.shiftl a k) (i + 96) = false).
  { intros a k Ha Hk Hlog. rewrite Z.shiftl_spec by lia.
    apply Z.bits_above_log2; lia. }
  rewrite Z.lor_spec, Z.land_spec, Z.lnot_spec, Z.lor_spec, Z.land_spec,
    Z.lnot_spec, Z.land_spec by lia.
  rewrite !Hc by (simpl; lia).
  rewrite Z.ones_spec_low by lia. simpl.
  by rewrite !andb_true_r, !orb_false_r.
Qed.

Lemma comment_id_at_time_low k :
  comment_id_at env k = PyStr.hex_fixed 8 (drawn_time_low env k).
Proof. apply uuid_prefix. Qed.

Lemma comment_id_at_eq k1 k2 :
  comment_id_at env k1 = comment_id_at env k2 <->
  drawn_time_low env k1 = drawn_time_low env k2.
Proof. apply uuid_prefix_eq. Qed.

Lemma worker_task_uuid is_first c st w ctl st' w' :
  worker_task env is_first c st w = (ctl, st', w') -> uuid_calls w' = uuid_calls w.
Proof.
  unfold worker_task, random_uniform, time_sleep.
  destruct is_first; [|destruct (sleep_raises env _)];
    try (by intros [= _ _ <-]);
    destruct (post_comment_to_reddit _ _ _ _ _) as [s w1] eqn:E;
    intros [= _ _ <-]; by apply executor_effects in E as (_ & _ & _ & _ & _ & ->).
Qed.

Lemma keepalive_attempts_uuid attempts c cookies tok w s w1 :
  keepalive_attempts env attempts c cookies tok w = (s, w1) ->
  uuid_calls w1 = uuid_calls w.
Proof.
  revert w. induction attempts as [|a attempts IH]; intros w; simpl.
  - intros [= _ <-]; done.
  - destruct (post_comment_to_reddit _ _ _ _ _) as [s0 w0] eqn:E.
    apply executor_effects in E as (_ & _ & _ & _ & _ & Hu).
    destruct s0; [intros [= _ <-]; done|].
    intros H. apply IH in H. by rewrite H.
Qed.

Lemma keepalive_loop_uuid fuel posted failed cookies tok st w p f st' w' :
  keepalive_loop env fuel posted failed cookies tok st w = Some (p, f, st', w') ->
  uuid_calls w' = uuid_calls w.
Proof.
  revert posted failed st w.
  induction fuel as [|fuel IH]; intros posted failed st w; simpl; [done|].
  destruct (comment_queue st) as [|c rest]; [intros [= _ _ _ <-]; done|].
  unfold keepalive_task.
  destruct (keepalive_attempts _ _ _ _ _ _) as [s w1] eqn:E.
  apply keepalive_attempts_uuid in E.
  unfold record_result, now_iso.
  destruct (queue_is_empty _); intros H; apply IH in H; by rewrite H.
Qed.

(** Only an accepted submission draws UUIDs: as many as it returns
    identifiers, which are their eight-digit prefixes in the order drawn. *)
Lemma step_ids o st w :
  let ids :=
    match o with
    | OpSubmit data => response_ids (receive_comments env data st w).1.1
    | _ => []
    end in
  ids = map (comment_id_at env) (seq (uuid_calls w) (length ids)) /\
  uuid_calls (step env o (st, w)).2 = uuid_calls w + length ids.
Proof.
  destruct o as [data|t| |]; simpl.
  - unfold receive_comments.
    destruct (body_falsy data); [simpl; split; [done|lia]|].
    destruct (bool_decide _); [simpl; split; [done|lia]|].
    destruct (_ || _); [simpl; split; [done|lia]|].
    rewrite enqueue_all_spec. simpl.
    by rewrite length_map, length_seq.
  - split; [done|]. unfold worker_pass.
    destruct (threads st !! t) as [[f| |]|]; cbn [snd]; try lia.
    rewrite worker_loop_one. unfold worker_iteration.
    destruct (comment_queue st) as [|c rest].
    + destruct (_ && _); simpl; lia.
    + destruct (worker_task _ _ _ _ _) as [[ctl st1] w1] eqn:E.
      apply worker_task_uuid in E. simpl in *. lia.
  - split; [done|]. unfold keepalive.
    destruct (keepalive_loop _ _ _ _ _ _ _ _) as [[[[p f] st1] w1]|] eqn:E;
      simpl; [|lia].
    apply keepalive_loop_uuid in E. lia.
  - split; [done|lia].
Qed.

Lemma assigned_ids_spec ops st w :
  assigned_ids env ops (st, w)
    = map (comment_id_at env)
        (seq (uuid_calls w) (length (assigned_ids env ops (st, w)))) /\
  uuid_calls (run env ops (st, w)).2
    = uuid_calls w + length (assigned_ids env ops (st, w)).
Proof.
  revert st w. induction ops as [|o ops IH]; intros st w.
  - simpl. split; [done|lia].
  - rewrite run_cons. cbn [assigned_ids fst snd].
    destruct (step_ids o st w) as [Hids Hu].
    destruct (step env o (st, w)) as [st1 w1] eqn:E.
    destruct (IH st1 w1) as [Hids' Hu'].
    cbn [snd] in Hu. rewrite length_app, seq_app, map_app.
    split.
    + rewrite <- Hu, <- Hids', <- Hids. done.
    + rewrite Hu', Hu. lia.
Qed.

(** C4, as the code has it. The identifiers handed out over a run are the
    eight-digit prefixes of the UUIDs drawn, one draw per task, in order;
    such a prefix spells the first four of the sixteen random bytes of its
    draw. Nothing compares an identifier with earlier ones: the identifiers
    of a run are pairwise distinct exactly when the four-byte prefixes of
    its draws are. *)
Theorem identifiers_are_uuid_prefixes ops st w :
  assigned_ids env ops (st, w)
    = map (comment_id_at env)
        (seq (uuid_calls w) (length (assigned_ids env ops (st, w)))) /\
  (forall k,
     comment_id_at env k = PyStr.hex_fixed 8 (drawn_time_low env k) /\
     drawn_time_low env k
       = Z.land (Z.shiftr (os_urandom16 env k) 96) (Z.ones 32)) /\
  (NoDup (assigned_ids env ops (st, w)) <->
   NoDup (map (drawn_time_low env)
            (seq (uuid_calls w) (length (assigned_ids env ops (st, w)))))).
Proof.
  destruct (assigned_ids_spec ops st w) as [Hids _].
  split; [done|]. split.
  - intros k. split; [apply comment_id_at_time_low|apply uuid4_time_low].
  - rewrite Hids at 1. apply NoDup_map_iff, comment_id_at_eq.
Qed.

End Identifiers.

(** C4 fails as stated: two submissions whose UUIDs differ but start with
    the same four bytes are given the same identifier. *)
Lemma identifiers_can_collide :
  assigned_ids colliding_env ops_two_submissions (initial_state, initial_world)
    = ["3f2a9c41"; "3f2a9c41"] /\
  Uuid.uuid4 (os_urandom16 colliding_env 0)
    <> Uuid.uuid4 (os_urandom16 colliding_env 1) /\
  ~ NoDup (assigned_ids colliding_env ops_two_submissions
             (initial_state, initial_world)).
Proof.
  assert (H : assigned_ids colliding_env ops_two_submissions
                (initial_state, initial_world) = ["3f2a9c41"; "3f2a9c41"])
    by (vm_compute; reflexivity).
  split; [exact H|]. split; [by vm_compute|].
  rewrite H. intros Hnd. apply NoDup_cons in Hnd as [Hnotin _].
  apply Hnotin. by left.
Qed.

(** A batch of two comments is accepted and counted. *)
Lemma enqueue_contract_witness :
  exists ids st' w',
    receive_comments flaky_env
      (Some (sample_body [sample_comment; sample_comment_no_url] 0 0))
      initial_state initial_world
      = (Accepted ids (length (comment_queue st')), st', w') /\
    total_received st' = 2.
Proof.
  destruct (enqueue_contract flaky_env
              (sample_body [sample_comment; sample_comment_no_url] 0 0)
              [sample_comment; sample_comment_no_url] sample_cookies "tok"
              initial_state initial_world)
    as (ids & st' & w' & E & _ & _ & _ & _ & Hr); try done.
  exists ids, st', w'. split; [exact E|exact Hr].
Defined.

(** * Further properties *)

(** ** Counters, marker and accounting *)

Section Accounting.

Variable env : oracle.

Lemma worker_task_marker is_first c st w ctl st' w' :
  worker_task env is_first c st w = (ctl, st', w') ->
  (ctl = Raise /\ st' = st) \/ (ctl = Continue false /\ currently_posting st' = None).
Proof.
  intros E. apply worker_task_spec in E
    as [(_ & _ & -> & -> & _)|(_ & -> & _ & _ & _ & _ & _ & _ & _ & _ & _ & _ & Hm)];
    auto.
Qed.

Lemma keepalive_task_marker c posted failed cookies tok st w p f st' w' :
  keepalive_task env c posted failed cookies tok st w = (p, f, st', w') ->
  currently_posting st' = None.
Proof.
  unfold keepalive_task.
  destruct (keepalive_attempts _ _ _ _ _ _) as [s w1].
  unfold record_result, now_iso. intros [= _ _ <- _]. by destruct s.
Qed.

(** Every comment that leaves the queue in a served stretch is counted as
    posted or failed, or was dropped by a sleep that raised. *)
Lemma served_accounting st w st' w' new rs arrived :
  served st w st' w' new rs -> fifo st st' new arrived ->
  completions st' + length (comment_queue st') + length (raised (trace w'))
    = completions st + length (comment_queue st) + length (raised (trace w))
      + length arrived.
Proof.
  intros (Ht & _ & Hlen & _ & Hr & Hc & _) Hf. unfold fifo in Hf.
  apply (f_equal (@length _)) in Hf. rewrite !length_app in Hf.
  apply Forall2_length in Hr.
  rewrite Ht, raised_app, length_app. lia.
Qed.

(** What one pass of the worker does to the counters: a task moves from the
    queue to exactly one of the two outcome counters, or is dropped by the
    sleep that raised. *)
Lemma worker_iteration_counts is_first st w ctl st' w' :
  worker_iteration env is_first st w = (ctl, st', w') ->
  total_received st' = total_received st /\
  total_success st <= total_success st' /\
  total_fail st <= total_fail st' /\
  completions st' + length (comment_queue st') + length (raised (trace w'))
    = completions st + length (comment_queue st) + length (raised (trace w)) /\
  (currently_posting st = None -> currently_posting st' = None).
Proof.
  intros H.
  destruct (worker_iteration_served env _ _ _ _ _ _ H) as (new & rs & Hs & Hf).
  pose proof (served_accounting _ _ _ _ _ _ _ Hs Hf) as Hacc.
  simpl in Hacc. rewrite Nat.add_0_r in Hacc.
  unfold worker_iteration in H.
  destruct (comment_queue st) as [|c rest] eqn:Hq.
  - destruct (_ && _); injection H as _ <- _; repeat split; done.
  - pose proof (worker_task_marker _ _ _ _ _ _ _ H) as Hm.
    apply worker_task_spec in H
      as [(_ & _ & _ & -> & _)
         |(_ & _ & s & w2 & _ & _ & _ & Hsu & Hfl & Hr & _)].
    + repeat split; done.
    + simpl in Hsu, Hfl, Hr. rewrite Hsu, Hfl, Hr.
      destruct Hm as [[_ ->]|[_ Hm]];
        destruct s; simpl; repeat split; try done; lia.
Qed.

(** The loop of the drain-now path: every pending task ends in exactly one
    of the two outcome counters and of the two tallies of the report. *)
Lemma keepalive_loop_counts fuel posted failed cookies tok st w p f st' w' :
  keepalive_loop env fuel posted failed cookies tok st w = Some (p, f, st', w') ->
  total_received st' = total_received st /\
  total_success st' + posted = total_success st + p /\
  total_fail st' + failed = total_fail st + f /\
  p + f = posted + failed + length (comment_queue st) /\
  comment_queue st' = [] /\
  (currently_posting st = None -> currently_posting st' = None).
Proof.
  revert posted failed st w.
  induction fuel as [|fuel IH]; intros posted failed st w; simpl; [done|].
  destruct (comment_queue st) as [|c rest] eqn:Hq.
  - intros [= <- <- <- _]. rewrite Hq. simpl. repeat split; try done; lia.
  - destruct (keepalive_task _ _ _ _ _ _ _ _) as [[[p1 f1] st1] w1] eqn:E.
    intros Hloop.
    pose proof (keepalive_task_marker _ _ _ _ _ _ _ _ _ _ _ E) as Hm.
    apply keepalive_task_spec in E
      as (s & wa & _ & Hp & Hf & _ & Hs & Hfl & Hr & Hcq & _).
    simpl in Hs, Hfl, Hr, Hcq.
    destruct (IH _ _ _ _ Hloop) as (Hr' & Hs' & Hf' & Hn & He & _).
    rewrite Hcq in Hn. rewrite Hr', Hr.
    split; [done|]. subst p1 f1.
    destruct s; simpl in *; repeat split; try done; try lia.
    all: intros _; apply IH in Hloop as (_ & _ & _ & _ & _ & Hm'); by apply Hm'.
Qed.

Lemma keepalive_counts st w r st' w' :
  keepalive env st w = Some (r, st', w') ->
  total_received st' = total_received st /\
  total_success st' = total_success st + k_posted r /\
  total_fail st' = total_fail st + k_failed r /\
  k_posted r + k_failed r = length (comment_queue st) /\
  comment_queue st' = [] /\
  (currently_posting st = None -> currently_posting st' = None) /\
  raised (trace w') = raised (trace w).
Proof.
  intros H.
  destruct (keepalive_served env _ _ _ _ _ H)
    as (new & rs & (Ht & _) & _ & _ & Hra).
  revert H. unfold keepalive.
  destruct (keepalive_loop _ _ _ _ _ _ _ _) as [[[[p f] st1] w1]|] eqn:E; [|done].
  intros [= <- <- <-]. simpl.
  apply keepalive_loop_counts in E as (Hr & Hs & Hf & Hn & He & Hm).
  simpl in Ht. rewrite Ht, raised_app, Hra, app_nil_r.
  repeat split; try done; lia.
Qed.

Lemma receive_comments_counts data st w resp st' w' :
  receive_comments env data st w = (resp, st', w') ->
  total_received st <= total_received st' /\
  total_success st' = total_success st /\
  total_fail st' = total_fail st /\
  total_received st' + length (comment_queue st)
    = total_received st + length (comment_queue st') /\
  currently_posting st' = currently_posting st /\
  trace w' = trace w.
Proof.
  unfold receive_comments. intros H.
  destruct (body_falsy data); [injection H as _ <- <-; repeat split; done|].
  destruct (bool_decide _); [injection H as _ <- <-; repeat split; done|].
  destruct (_ || _); [injection H as _ <- <-; repeat split; done|].
  rewrite enqueue_all_spec in H. injection H as _ <- <-.
  unfold _ensure_worker. destruct (worker_alive _); simpl;
    rewrite length_app; unfold tag_ids;
    rewrite length_zip_with, length_map, length_seq;
    repeat split; try done; lia.
Qed.

(** What one operation does to the counters. *)
Lemma step_counts o st w st' w' :
  step env o (st, w) = (st', w') ->
  total_received st <= total_received st' /\
  total_success st <= total_success st' /\
  total_fail st <= total_fail st' /\
  total_received st' + completions st + length (comment_queue st)
      + length (raised (trace w))
    = total_received st + completions st' + length (comment_queue st')
      + cleared env [o] (st, w) + length (raised (trace w')) /\
  (currently_posting st = None -> currently_posting st' = None).
Proof.
  destruct o as [data|t| |]; simpl; intros H.
  - destruct (receive_comments _ _ _ _) as [[r st1] w1] eqn:E.
    injection H as <- <-.
    apply receive_comments_counts in E as (Hr & Hs & Hf & Ha & Hm & Ht).
    unfold completions. rewrite Hs, Hf, Hm, Ht. repeat split; try done; lia.
  - unfold worker_pass in H.
    destruct (threads st !! t) as [[f| |]|];
      try (injection H as <- <-; repeat split; try done; lia).
    rewrite worker_loop_one in H.
    destruct (worker_iteration env f st w) as [[ctl st1] w1] eqn:E.
    apply worker_iteration_counts in E as (Hr & Hs & Hf & Ha & Hm).
    unfold completions in *.
    injection H as <- <-; simpl; repeat split; try done; lia.
  - destruct (keepalive _ _ _) as [[[r st1] w1]|] eqn:E.
    + injection H as <- <-.
      apply keepalive_counts in E as (Hr & Hs & Hf & Hn & He & Hm & Hra).
      unfold completions. rewrite He, Hra. simpl. repeat split; try done; lia.
    + injection H as <- <-. repeat split; try done; lia.
  - injection H as <- <-. simpl. repeat split; try done.
    unfold completions. simpl. lia.
Qed.

Lemma run_counts ops st w st' w' :
  run env ops (st, w) = (st', w') ->
  total_received st <= total_received st' /\
  total_success st <= total_success st' /\
  total_fail st <= total_fail st' /\
  total_received st' + completions st + length (comment_queue st)
      + length (raised (trace w))
    = total_received st + completions st' + length (comment_queue st')
      + cleared env ops (st, w) + length (raised (trace w')) /\
  (currently_posting st = None -> currently_posting st' = None).
Proof.
  revert st w. induction ops as [|o ops IH]; intros st w H.
  - injection H as <- <-. simpl. repeat split; try done; lia.
  - rewrite run_cons in H. cbn [cleared].
    destruct (step env o (st, w)) as [st1 w1] eqn:E.
    pose proof (step_counts _ _ _ _ _ E) as (Hr & Hs & Hf & Ha & Hm).
    destruct (IH _ _ H) as (Hr' & Hs' & Hf' & Ha' & Hm').
    cbn [cleared] in Ha. rewrite Nat.add_0_r in Ha. cbn [fst snd] in *.
    repeat split; try lia. auto.
Qed.

(** X1. The three counters never decrease, whatever the server does. *)
Theorem counters_never_decrease ops st w :
  total_received st <= total_received (run env ops (st, w)).1 /\
  total_success st <= total_success (run env ops (st, w)).1 /\
  total_fail st <= total_fail (run env ops (st, w)).1.
Proof.
  destruct (run env ops (st, w)) as [st' w'] eqn:E.
  apply run_counts in E as (Hr & Hs & Hf & _). done.
Qed.

(** X2. Every comment ever received is accounted for: at any moment
    [total_received] is the number of comments posted, failed, still
    pending, removed by a clear, and dropped by a worker whose sleep
    raised after it had dequeued them, taken together. *)
Theorem every_comment_is_accounted_for ops :
  let sw := run env ops (initial_state, initial_world) in
  total_received sw.1
    = total_success sw.1 + total_fail sw.1 + length (comment_queue sw.1)
      + cleared env ops (initial_state, initial_world)
      + length (raised (trace sw.2)).
Proof.
  destruct (run env ops (initial_state, initial_world)) as [st' w'] eqn:E.
  apply run_counts in E as (_ & _ & _ & Ha & _).
  unfold completions in Ha. simpl in *. lia.
Qed.

(** X3. Between operations nothing is marked as being posted: the marker
    set before the executor is called is cleared after it, whether the post
    succeeded or not, by the worker and by the drain-now path alike. (A
    worker whose sleep raises has not set the marker yet, and leaves the
    store as it is.) *)
Theorem marker_is_cleared ops :
  currently_posting (run env ops (initial_state, initial_world)).1 = None /\
  (forall is_first c st w,
     match (worker_task env is_first c st w).1.1 with
     | Raise => (worker_task env is_first c st w).1.2 = st
     | _ => currently_posting (worker_task env is_first c st w).1.2 = None
     end) /\
  (forall c posted failed cookies tok st w,
     currently_posting
       (keepalive_task env c posted failed cookies tok st w).1.2 = None).
Proof.
  split; [|split].
  - destruct (run env ops (initial_state, initial_world)) as [st' w'] eqn:E.
    apply run_counts in E as (_ & _ & _ & _ & Hm). by apply Hm.
  - intros is_first c st w.
    destruct (worker_task env is_first c st w) as [[ctl st'] w'] eqn:E.
    by apply worker_task_marker in E as [[-> ->]|[-> ?]].
  - intros c posted failed cookies tok st w.
    destruct (keepalive_task env c posted failed cookies tok st w)
      as [[[p f] st'] w'] eqn:E.
    by apply keepalive_task_marker in E.
Qed.

End Accounting.

(** ** Drain-now as a whole *)

Section Drain.

Variable env : oracle.

(** X4. Called on an empty queue, the drain-now route reports 0 posted and
    0 failed at once: it calls the executor for nothing, sleeps for nothing
    and leaves the store as it is. *)
Theorem drain_now_on_empty_queue st w :
  comment_queue st = [] ->
  exists w',
    keepalive env st w
      = Some ({| k_posted := 0; k_failed := 0;
                 k_time := utc_now_iso env (clock_calls w) |}, st, w') /\
    trace w' = trace w.
Proof.
  intros Hq. unfold keepalive. simpl. rewrite Hq. simpl. eauto.
Qed.

(** X5. The drain-now route always returns, and when it does the queue is
    empty: it has dequeued every pending comment, in queue order, and each
    of them is counted exactly once, as posted or as failed, in its report
    and in the server's counters. *)
Theorem drain_now_empties_the_queue st w :
  exists r st' w' new,
    keepalive env st w = Some (r, st', w') /\
    trace w' = trace w ++ new /\
    dequeued new = comment_queue st /\
    comment_queue st' = [] /\
    k_posted r + k_failed r = length (comment_queue st) /\
    total_success st' = total_success st + k_posted r /\
    total_fail st' = total_fail st + k_failed r /\
    total_received st' = total_received st.
Proof.
  destruct (keepalive_total env st w) as [[[r st'] w'] E].
  destruct (keepalive_served env _ _ _ _ _ E)
    as (new & rs & (Ht & _) & Hf & He & _).
  destruct (keepalive_counts env _ _ _ _ _ E) as (Hr & Hs & Hfl & Hn & _).
  exists r, st', w', new. unfold fifo in Hf.
  rewrite He, !app_nil_r in Hf. done.
Qed.

End Drain.

(** On a server that has just started, the drain-now route has nothing to
    do. *)
Lemma drain_now_on_empty_queue_witness :
  exists w',
    keepalive flaky_env initial_state initial_world
      = Some ({| k_posted := 0; k_failed := 0; k_time := sample_now |},
              initial_state, w') /\
    trace w' = [].
Proof.
  exact (drain_now_on_empty_queue flaky_env initial_state initial_world eq_refl).
Defined.

(** ** Executor calls and requests *)

Section Calls.

Variable env : oracle.











End Calls.

(** ** Clearing, and the worker emptying the queue *)

Section Consumers.

Variable env : oracle.

(** With nothing pending, an operation other than a submission executes
    nothing and leaves queue, history and counters alone. *)
Lemma step_on_empty_queue o st w st' w' :
  is_submit o = false -> comment_queue st = [] ->
  step env o (st, w) = (st', w') ->
  comment_queue st' = [] /\
  posting_history st' = posting_history st /\
  total_received st' = total_received st /\
  total_success st' = total_success st /\
  total_fail st' = total_fail st /\
  exists new,
    trace w' = trace w ++ new /\
    dequeued new = [] /\ invoked new = [] /\ http_posts new = [].
Proof.
  intros Hs Hq.
  destruct o as [data|t| |]; [done| | |]; simpl; intros H.
  - unfold worker_pass in H.
    destruct (threads st !! t) as [[f| |]|];
      try (injection H as <- <-; repeat (split; [done|]);
           exists []; by rewrite app_nil_r).
    rewrite worker_loop_one in H. unfold worker_iteration in H.
    rewrite Hq in H.
    destruct (_ && _); injection H as <- <-; simpl;
      repeat (split; [done|]); by exists [EvSleep 1].
  - unfold keepalive in H. simpl in H. rewrite Hq in H. simpl in H.
    injection H as <- <-. repeat (split; [done|]).
    exists []. by rewrite app_nil_r.
  - injection H as <- <-. simpl. repeat (split; [done|]).
    exists []. by rewrite app_nil_r.
Qed.

Lemma run_on_empty_queue ops st w :
  existsb is_submit ops = false -> comment_queue st = [] ->
  comment_queue (run env ops (st, w)).1 = [] /\
  posting_history (run env ops (st, w)).1 = posting_history st /\
  total_received (run env ops (st, w)).1 = total_received st /\
  total_success (run env ops (st, w)).1 = total_success st /\
  total_fail (run env ops (st, w)).1 = total_fail st /\
  exists new,
    trace (run env ops (st, w)).2 = trace w ++ new /\
    dequeued new = [] /\ invoked new = [] /\ http_posts new = [].
Proof.
  revert st w. induction ops as [|o ops IH]; intros st w Hs Hq.
  - simpl. repeat (split; [done|]). exists []. by rewrite app_nil_r.
  - simpl in Hs. apply orb_false_elim in Hs as [Hs1 Hs2].
    rewrite run_cons. destruct (step env o (st, w)) as [st1 w1] eqn:E.
    destruct (step_on_empty_queue _ _ _ _ _ Hs1 Hq E)
      as (Hq1 & Hh & Hr & Hsu & Hf & new1 & Ht1 & Hd1 & Hi1 & Hp1).
    destruct (IH st1 w1 Hs2 Hq1)
      as (Hq2 & Hh2 & Hr2 & Hsu2 & Hf2 & new2 & Ht2 & Hd2 & Hi2 & Hp2).
    rewrite Hh2, Hr2, Hsu2, Hf2. repeat (split; [done|]).
    exists (new1 ++ new2).
    rewrite Ht2, Ht1, app_assoc, dequeued_app, invoked_app, http_posts_app,
      Hd1, Hd2, Hi1, Hi2, Hp1, Hp2. done.
Qed.

(** X7. A clear reports how many comments were pending and removes them
    all; whatever the worker and the drain-now route do afterwards, until
    the next submission, none of the removed comments is dequeued, handed to
    the executor or posted, and history and counters stay as they were. *)
Theorem cleared_comments_are_never_posted ops st w :
  existsb is_submit ops = false ->
  (clear_queue st).1 = length (comment_queue st) /\
  comment_queue (run env (OpClear :: ops) (st, w)).1 = [] /\
  posting_history (run env (OpClear :: ops) (st, w)).1 = posting_history st /\
  total_received (run env (OpClear :: ops) (st, w)).1 = total_received st /\
  total_success (run env (OpClear :: ops) (st, w)).1 = total_success st /\
  total_fail (run env (OpClear :: ops) (st, w)).1 = total_fail st /\
  exists new,
    trace (run env (OpClear :: ops) (st, w)).2 = trace w ++ new /\
    dequeued new = [] /\ invoked new = [] /\ http_posts new = [].
Proof.
  intros Hs. split; [done|]. rewrite run_cons. simpl.
  by apply (run_on_empty_queue ops (set_comment_queue [] st) w).
Qed.

(** A pass of a live worker over a queue that is not empty takes the first
    comment and, unless its sleep raises, calls the executor on it once and
    counts it. *)
Lemma task_pass st w t b c rest :
  comment_queue st = c :: rest -> threads st !! t = Some (Alive b) ->
  waits_accepted env st ->
  exists new,
    comment_queue (worker_pass env t st w).1 = rest /\
    threads (worker_pass env t st w).1 !! t = Some (Alive false) /\
    wait_range (worker_pass env t st w).1 = wait_range st /\
    trace (worker_pass env t st w).2 = trace w ++ new /\
    dequeued new = [c] /\ invoked new = [c] /\ raised new = [] /\
    completions (worker_pass env t st w).1 = S (completions st).
Proof.
  intros Hq Ht Hok. unfold worker_pass. rewrite Ht, worker_loop_one.
  unfold worker_iteration. rewrite Hq.
  destruct (worker_task env b c (set_comment_queue rest st) (emit (EvDequeue c) w))
    as [[ctl st'] w'] eqn:E.
  destruct (worker_task_lifecycle env _ _ _ _ _ _ _ E) as [Hl _].
  apply worker_task_spec in E. cbv zeta in E.
  destruct E as [(_ & Hr & _)
                |(_ & -> & s & w2 & Hpost & Htr & _ & Hs & Hf & _ & Hq' & Hw & _)].
  { simpl in Hr. by rewrite Hok in Hr. }
  apply executor_effects in Hpost as (posts & Ht2 & Hp & _).
  pose proof (at_most_one_post_no_raise _ Hp) as Hra.
  apply at_most_one_post_quiet in Hp as (Hd & _ & Hi).
  injection Hl as Ht' _ _. simpl in *.
  eexists (EvDequeue c :: (if b then [] else [_]) ++ EvInvoke c _ _ :: posts).
  split; [done|].
  split; [rewrite Ht'; apply list_lookup_insert_eq; by eapply lookup_lt_Some|].
  split; [done|].
  split; [rewrite Htr, Ht2; destruct b; simpl; by rewrite <- !app_assoc|].
  split; [destruct b; simpl; by rewrite Hd|].
  split; [destruct b; simpl; by rewrite Hi|].
  split; [destruct b; simpl; by rewrite Hra|].
  unfold completions. simpl. rewrite Hs, Hf. destruct s; lia.
Qed.

(** X8. Left alone with [n] pending comments, a live worker whose sleeps
    return empties the queue in [n] passes: it dequeues the comments in
    queue order, calls the executor exactly once on each, and counts each
    as posted or failed. *)
Theorem worker_empties_the_queue st w t b :
  threads st !! t = Some (Alive b) ->
  waits_accepted env st ->
  exists new,
    let sw := run env (replicate (length (comment_queue st)) (OpWorker t)) (st, w) in
    trace sw.2 = trace w ++ new /\
    dequeued new = comment_queue st /\
    invoked new = comment_queue st /\
    raised new = [] /\
    comment_queue sw.1 = [] /\
    completions sw.1 = completions st + length (comment_queue st).
Proof.
  remember (comment_queue st) as q eqn:Hq. symmetry in Hq.
  revert st w b Hq. induction q as [|c rest IH]; intros st w b Hq Ht Hok.
  - exists []. simpl. rewrite app_nil_r. repeat split; try done; lia.
  - cbn [length replicate]. rewrite run_cons. cbn [step].
    destruct (task_pass st w t b c rest Hq Ht Hok)
      as (new1 & Hq1 & Ht1 & Hw1 & Htr1 & Hd1 & Hi1 & Hr1 & Hc1).
    destruct (worker_pass env t st w) as [st1 w1]. cbn [fst snd] in *.
    destruct (IH st1 w1 false Hq1 Ht1)
      as (new2 & Htr2 & Hd2 & Hi2 & Hr2 & Hq2 & Hc2).
    { unfold waits_accepted. by rewrite Hw1. }
    exists (new1 ++ new2). cbn zeta in *.
    rewrite Htr2, Htr1, app_assoc, dequeued_app, invoked_app, raised_app,
      Hd1, Hd2, Hi1, Hi2, Hr1, Hr2.
    repeat split; try done. rewrite Hc2, Hc1. simpl. lia.
Qed.

End Consumers.

(** The worker of a server that received two comments with waits of 0
    posts both. *)
Lemma worker_empties_the_queue_witness :
  let sw :=
    run flaky_env
      [OpSubmit (Some (sample_body [sample_comment; sample_comment_no_url] 0 0))]
      (initial_state, initial_world) in
  exists new,
    dequeued new = comment_queue sw.1 /\ invoked new = comment_queue sw.1.
Proof.
  intros sw.
  destruct (worker_empties_the_queue flaky_env sw.1 sw.2 0 true)
    as (new & _ & Hd & Hi & _).
  - reflexivity.
  - intros k. reflexivity.
  - exists new. split; [exact Hd|exact Hi].
Defined.

(** After a clear nothing is left to post. *)
Lemma cleared_comments_are_never_posted_witness :
  comment_queue
    (run flaky_env [OpClear; OpWorker 0; OpKeepalive]
       (run flaky_env ops_two_submissions (initial_state, initial_world))).1 = [].
Proof.
  destruct (run flaky_env ops_two_submissions (initial_state, initial_world))
    as [st w].
  destruct (cleared_comments_are_never_posted flaky_env
              [OpWorker 0; OpKeepalive] st w) as (_ & H & _).
  - reflexivity.
  - exact H.
Defined.

(** ** The executor on a well-formed task *)

Section Executor.

Variable env : oracle.

Lemma falsy_false s : s <> "" -> PyStr.falsy s = false.
Proof. by destruct s. Qed.

(** X9. For a task with a destination, a text and an extractable post
    identifier, the executor sends exactly one request, to the
    create-comment address of that post, with the URL as referer and the
    cookies, token and text it was given; it reports success exactly when
    the reply has status 200, and failure for any other status and when the
    request raises. *)
Theorem executor_reports_the_reply c cookies tok w id :
  get_str c "url" <> "" -> get_str c "ai_comment" <> "" ->
  extract_post_id (get_str c "url") = Some id -> id <> "" ->
  exists w',
    post_comment_to_reddit env c cookies tok w
      = (bool_decide (http_reply env (http_calls w) = Some 200%Z), w') /\
    trace w' = trace w ++
      [EvInvoke c cookies tok;
       EvHttpPost
         ("https://www.reddit.com/svc/shreddit/t3_" +:+ id +:+ "/create-comment")
         (get_str c "url") cookies tok (get_str c "ai_comment")] /\
    http_calls w' = S (http_calls w).
Proof.
  intros Hu Ha Hid Hne. unfold post_comment_to_reddit, http_post.
  rewrite (falsy_false _ Hu), (falsy_false _ Ha), Hid. simpl.
  rewrite (falsy_false _ Hne). simpl.
  destruct (http_reply env (http_calls w)) as [code|] eqn:Hr.
  - eexists. split.
    { f_equal. destruct (Z.eqb_spec code 200) as [->|Hc].
      - by rewrite bool_decide_eq_true_2.
      - rewrite bool_decide_eq_false_2; [done|congruence]. }
    simpl. by rewrite <- app_assoc.
  - eexists. split.
    { by rewrite bool_decide_eq_false_2. }
    simpl. by rewrite <- app_assoc.
Qed.

End Executor.

(** The sample comment is posted to the post [abc123]; the first reply of
    the flaky service is a 500, so the call fails. *)
Lemma executor_reports_the_reply_witness :
  (post_comment_to_reddit flaky_env sample_comment sample_cookies "tok"
     initial_world).1 = false /\
  http_posts
    (trace (post_comment_to_reddit flaky_env sample_comment sample_cookies "tok"
              initial_world).2)
    = ["https://www.reddit.com/svc/shreddit/t3_abc123/create-comment"].
Proof.
  destruct (executor_reports_the_reply flaky_env sample_comment sample_cookies
              "tok" initial_world "abc123") as (w' & E & Ht & Hc);
    [done..|].
  rewrite E. cbn [fst snd]. rewrite Ht. split; reflexivity.
Defined.

(** ** Credentials and identifiers *)

Section Session.

Variable env : oracle.

Lemma invocations_app a b : invocations (a ++ b) = invocations a ++ invocations b.
Proof. apply flat_map_app. Qed.

(** X10. The latest submission's credentials and waits replace the
    earlier ones wholesale, absent waits becoming 4 and 6; a comment that
    was pending before that submission is then posted by the worker with
    the new cookies and token, not with those it was submitted under
    (unless the sleep before it raises, and it is not posted at all). *)
Theorem latest_credentials_win j comments cookies tok st w c0 rest is_first :
  j_comments j = Some comments -> comments <> [] ->
  j_cookies j = Some cookies -> cookies <> ∅ ->
  j_csrf_token j = Some tok -> tok <> "" ->
  comment_queue st = c0 :: rest ->
  exists new,
    let st1 := (receive_comments env (Some j) st w).1.2 in
    let w1 := (receive_comments env (Some j) st w).2 in
    let delay :=
      uniform_value env (random_calls w1) (wait_range st1).1 (wait_range st1).2 in
    session_cookies st1 = Some cookies /\
    session_csrf_token st1 = Some tok /\
    wait_range st1
      = (default (whole_seconds 4) (j_min_wait j),
         default (whole_seconds 6) (j_max_wait j)) /\
    trace (worker_iteration env is_first st1 w1).2 = trace w1 ++ new /\
    invocations new
      = (if negb is_first && sleep_raises env delay then []
         else [(c0, cookies, tok)]).
Proof.
  intros Hc Hne Hk Hkne Ht Htne Hq.
  rewrite (receive_comments_accepts env j comments cookies tok st w) by done.
  cbn [fst snd].
  set (st1 := _ensure_worker _). set (w1 := after_uuids _ _).
  assert (Hs : session_cookies st1 = Some cookies /\
               session_csrf_token st1 = Some tok /\
               wait_range st1
                 = (default (whole_seconds 4) (j_min_wait j),
                    default (whole_seconds 6) (j_max_wait j)) /\
               exists rest', comment_queue st1 = c0 :: rest').
  { subst st1. unfold _ensure_worker. destruct (worker_alive _); simpl;
      rewrite Hq; simpl; eauto 10. }
  destruct Hs as (Hsc & Hst & Hw & rest' & Hq1).
  unfold worker_iteration. rewrite Hq1.
  destruct (worker_task _ _ _ _ _) as [[ctl st2] w2] eqn:E.
  apply worker_task_spec in E. cbv zeta in E.
  change (random_calls (emit (EvDequeue c0) w1)) with (random_calls w1) in E.
  change (wait_range (set_comment_queue rest' st1)) with (wait_range st1) in E.
  destruct E as [(-> & Hr & _ & _ & ->)|(Hok & _ & s & w3 & Hpost & Htr & _)].
  - eexists [EvDequeue c0; EvSleepRaised _].
    cbn zeta. repeat (split; [done|]). rewrite Hr. split; [|done].
    cbn [snd]. simpl. by rewrite <- app_assoc.
  - simpl in Hpost. rewrite Hsc, Hst in Hpost. simpl in Hpost.
    apply executor_effects in Hpost as (posts & Ht2 & Hp & _).
    eexists (EvDequeue c0 :: (if is_first then [] else [_])
               ++ EvInvoke c0 cookies tok :: posts).
    cbn zeta. repeat (split; [done|]). split.
    + cbn [snd]. rewrite Htr, Ht2.
      destruct is_first; simpl; by rewrite <- !app_assoc.
    + assert (Hn : negb is_first && sleep_raises env
                (uniform_value env (random_calls w1) (wait_range st1).1
                   (wait_range st1).2) = false).
      { destruct Hok as [-> | ->]; [done|apply andb_false_r]. }
      rewrite Hn.
      destruct Hp as [->|(t & r & ck' & tok' & txt & ->)]; by destruct is_first.
Qed.

Lemma tag_ids_fields comments ids :
  length ids = length comments ->
  map (fun c => get_str c "id") (tag_ids comments ids) = ids /\
  Forall2 (fun c' c => forall key, key <> "id" -> c' !! key = c !! key)
    (tag_ids comments ids) comments.
Proof.
  revert ids. induction comments as [|c cs IH]; intros [|i ids] Hlen;
    try done; try (split; [done|constructor]).
  injection Hlen as Hlen. destruct (IH ids Hlen) as [Hm Hf].
  unfold tag_ids in *. simpl. split.
  - f_equal; [|done]. unfold get_str. by rewrite lookup_insert_eq.
  - constructor; [|done]. intros key Hkey. by rewrite lookup_insert_ne.
Qed.

(** X11. The identifiers returned for an accepted batch are the ones
    written into the queued comments, one each and in order; writing the
    identifier replaces an [id] the payload may have carried and changes no
    other field; and the history record later made for such a comment
    carries that identifier. *)
Theorem identifiers_are_written_into_the_tasks j comments cookies tok st w :
  j_comments j = Some comments -> comments <> [] ->
  j_cookies j = Some cookies -> cookies <> ∅ ->
  j_csrf_token j = Some tok -> tok <> "" ->
  exists ids tasks n st' w',
    receive_comments env (Some j) st w = (Accepted ids n, st', w') /\
    comment_queue st' = comment_queue st ++ tasks /\
    map (fun c => get_str c "id") tasks = ids /\
    Forall2 (fun c' c => forall key, key <> "id" -> c' !! key = c !! key)
      tasks comments /\
    Forall2 (fun c' i => forall s ts, r_id (make_result c' s ts) = i) tasks ids.
Proof.
  intros Hc Hne Hk Hkne Ht Htne.
  rewrite (receive_comments_accepts env j comments cookies tok st w) by done.
  set (ids := map (comment_id_at env) (seq (uuid_calls w) (length comments))).
  assert (Hlen : length ids = length comments)
    by (subst ids; by rewrite length_map, length_seq).
  destruct (tag_ids_fields comments ids Hlen) as [Hm Hf].
  eexists ids, (tag_ids comments ids), _, _, _.
  split; [reflexivity|].
  split; [unfold _ensure_worker; by destruct (worker_alive _)|].
  split; [done|]. split; [done|].
  rewrite <- Hm at 2. clear. induction (tag_ids comments ids); constructor; done.
Qed.

End Session.

(** A second submission with other cookies: the comment still pending
    from the first one is posted with the second one's cookies. *)
Lemma latest_credentials_win_witness :
  exists new,
    invocations new
      = [(<["id" := "00000000"]> sample_comment, sample_cookies, "tok")].
Proof.
  destruct (latest_credentials_win flaky_env
              (sample_body [sample_comment_no_url] 0 0) [sample_comment_no_url]
              sample_cookies "tok"
              (run flaky_env
                 [OpSubmit (Some {| j_comments := Some [sample_comment];
                                    j_cookies := Some {[ "old" := "jar" ]};
                                    j_csrf_token := Some "old-token";
                                    j_min_wait := None; j_max_wait := None;
                                    j_other_keys := false |})]
                 (initial_state, initial_world)).1
              initial_world
              (<["id" := "00000000"]> sample_comment) [] true)
    as (new & _ & _ & _ & _ & H); [done..|].
  exists new. exact H.
Defined.

(** The two comments of a batch come back under the identifiers returned. *)
Lemma identifiers_are_written_into_the_tasks_witness :
  exists ids tasks,
    map (fun c => get_str c "id") tasks = ids /\ length ids = 2.
Proof.
  destruct (identifiers_are_written_into_the_tasks flaky_env
              (sample_body [sample_comment; sample_comment_no_url] 0 0)
              [sample_comment; sample_comment_no_url] sample_cookies "tok"
              initial_state initial_world)
    as (ids & tasks & n & st' & w' & E & _ & Hm & Hf & _); [done..|].
  exists ids, tasks. split; [exact Hm|].
  rewrite <- Hm, length_map. apply Forall2_length in Hf. exact Hf.
Defined.

(** ** What the status routes show *)

Section Views.

Variable env : oracle.

Lemma last_n_last_n {A} m n (l : list A) :
  m <= n -> last_n m (last_n n l) = last_n m l.
Proof.
  intros Hmn. unfold last_n. rewrite drop_drop, length_drop. f_equal. lia.
Qed.

Lemma length_take n s :
  String.length (PyStr.take n s) = Nat.min n (String.length s).
Proof.
  revert s. induction n as [|n IH]; intros [|c s]; simpl; try done.
  by rewrite IH.
Qed.

Lemma take_all n s : String.length s <= n -> PyStr.take n s = s.
Proof.
  revert s. induction n as [|n IH]; intros [|c s]; simpl; try done; try lia.
  intros H. rewrite IH; [done|lia].
Qed.

Lemma take_is_prefix n s : exists rest, s = PyStr.take n s +:+ rest.
Proof.
  revert s. induction n as [|n IH]; intros [|c s]; simpl.
  - by exists "".
  - by exists (String c s).
  - by exists "".
  - destruct (IH s) as [rest Hr]. exists rest.
    transitivity (String c (PyStr.take n s +:+ rest)); [by f_equal|reflexivity].
Qed.

(** X12. Titles are cut, not altered: the title of a history record is
    the first 100 characters of the task's title, the title of a pending
    summary the first 80, the whole title when it is that short, and the
    empty string when the task has none. *)
Theorem titles_are_cut c success posted_at :
  String.length (r_title (make_result c success posted_at)) <= 100 /\
  (exists rest,
     get_str c "title" = r_title (make_result c success posted_at) +:+ rest) /\
  (String.length (get_str c "title") <= 100 ->
   r_title (make_result c success posted_at) = get_str c "title") /\
  String.length (p_title (summarize c)) <= 80 /\
  (exists rest, get_str c "title" = p_title (summarize c) +:+ rest) /\
  (String.length (get_str c "title") <= 80 ->
   p_title (summarize c) = get_str c "title") /\
  (c !! "title" = None ->
   r_title (make_result c success posted_at) = "" /\ p_title (summarize c) = "").
Proof.
  cbn [r_title make_result p_title summarize]. rewrite !length_take.
  split; [lia|]. split; [apply take_is_prefix|]. split; [apply take_all|].
  split; [lia|]. split; [apply take_is_prefix|]. split; [apply take_all|].
  unfold get_str. by intros ->.
Qed.

(** X13. Both status routes show the same view of the store: as many
    summaries as there are pending comments, in queue order and under their
    identifiers, and the 50 most recent results of everything the server
    has executed, oldest first, whatever the 500-entry bound has already
    dropped. *)
Theorem status_shows_the_latest_results ops uptime_secs :
  let sw := run env ops (initial_state, initial_world) in
  exists rs,
    records_of rs (first_executions false (trace sw.2)) /\
    s_recent_history (status sw.1) = last_n 50 rs /\
    length (s_recent_history (status sw.1)) <= 50 /\
    s_queue_size (status sw.1) = length (s_pending (status sw.1)) /\
    map p_id (s_pending (status sw.1))
      = map (fun c => get_str c "id") (comment_queue sw.1) /\
    d_recent_history (dashboard_status uptime_secs sw.1)
      = s_recent_history (status sw.1) /\
    d_pending (dashboard_status uptime_secs sw.1) = s_pending (status sw.1) /\
    d_queue_size (dashboard_status uptime_secs sw.1) = s_queue_size (status sw.1) /\
    d_total_success (dashboard_status uptime_secs sw.1)
      + d_total_fail (dashboard_status uptime_secs sw.1) = length rs.
Proof.
  intros sw. subst sw.
  destruct (run env ops (initial_state, initial_world)) as [st' w'] eqn:E.
  destruct (run_served env _ _ _ _ _ E)
    as (new & rs & (Ht & _ & _ & _ & Hr & Hc & Hh) & _ & _).
  simpl in Ht. subst new.
  destruct Hh as [Hh _]; [simpl; unfold MAX_HISTORY; lia|].
  simpl in Hh. exists rs. cbn [fst snd status dashboard_status
    s_recent_history s_queue_size s_pending d_recent_history d_pending
    d_queue_size d_total_success d_total_fail].
  split; [done|]. rewrite Hh, last_n_last_n by (unfold MAX_HISTORY; lia).
  split; [done|]. split; [rewrite length_last_n; lia|].
  split; [by rewrite length_map|]. split; [by rewrite map_map|].
  repeat (split; [done|]). unfold completions in Hc. simpl in Hc. lia.
Qed.

Lemma uptime_parts_cases secs :
  let days := (secs / 86400)%Z in
  let hours := (secs mod 86400 / 3600)%Z in
  let mins := (secs mod 86400 mod 3600 / 60)%Z in
  let s := (secs mod 86400 mod 3600 mod 60)%Z in
  uptime_parts secs =
    (if Z.eqb days 0 then [] else [(days, "d")]) ++
    (if Z.eqb hours 0 then [] else [(hours, "h")]) ++
    (if Z.eqb mins 0 then [] else [(mins, "m")]) ++ [(s, "s")].
Proof.
  unfold uptime_parts. simpl.
  destruct (Z.eqb _ 0), (Z.eqb _ 0), (Z.eqb _ 0); reflexivity.
Qed.

(** X14. The parts of the uptime text add up to the uptime: days, hours,
    minutes and seconds, a part shown only when it is not zero except the
    seconds, which always come last; hours stay below 24, minutes and
    seconds below 60. Under a minute the text is just the seconds. *)
Theorem uptime_parts_add_up secs :
  parts_seconds (uptime_parts secs) = secs /\
  (exists shown s,
     uptime_parts secs = shown ++ [(s, "s")] /\
     (0 <= s < 60)%Z /\
     Forall (fun p => p.1 <> 0%Z /\
                      (p.2 = "d" \/
                       (p.2 = "h" /\ (0 < p.1 < 24)%Z) \/
                       (p.2 = "m" /\ (0 < p.1 < 60)%Z))) shown) /\
  ((0 <= secs < 60)%Z -> _human_uptime secs = pretty secs +:+ "s").
Proof.
  pose proof (Z.div_mod secs 86400 ltac:(lia)) as Hd.
  pose proof (Z.mod_pos_bound secs 86400 ltac:(lia)) as Hdb.
  pose proof (Z.div_mod (secs mod 86400) 3600 ltac:(lia)) as Hh.
  pose proof (Z.mod_pos_bound (secs mod 86400) 3600 ltac:(lia)) as Hhb.
  pose proof (Z.div_mod (secs mod 86400 mod 3600) 60 ltac:(lia)) as Hm.
  pose proof (Z.mod_pos_bound (secs mod 86400 mod 3600) 60 ltac:(lia)) as Hmb.
  assert (Hhr : (0 <= secs mod 86400 / 3600 < 24)%Z).
  { split; [apply Z.div_pos; lia|apply Z.div_lt_upper_bound; lia]. }
  assert (Hmr : (0 <= secs mod 86400 mod 3600 / 60 < 60)%Z).
  { split; [apply Z.div_pos; lia|apply Z.div_lt_upper_bound; lia]. }
  split; [|split].
  - rewrite uptime_parts_cases. cbv zeta.
    destruct (Z.eqb_spec (secs / 86400) 0) as [E1|E1],
             (Z.eqb_spec (secs mod 86400 / 3600) 0) as [E2|E2],
             (Z.eqb_spec (secs mod 86400 mod 3600 / 60) 0) as [E3|E3];
      unfold parts_seconds; cbn [app fold_right fst snd unit_seconds String.eqb
        Ascii.eqb Bool.eqb]; lia.
  - rewrite uptime_parts_cases. cbv zeta.
    eexists _, _. rewrite !app_assoc. split; [reflexivity|]. split; [done|].
    rewrite !Forall_app.
    destruct (Z.eqb_spec (secs / 86400) 0) as [E1|E1],
             (Z.eqb_spec (secs mod 86400 / 3600) 0) as [E2|E2],
             (Z.eqb_spec (secs mod 86400 mod 3600 / 60) 0) as [E3|E3];
      repeat match goal with
             | |- Forall _ [] => constructor
             | |- Forall _ (_ :: _) => constructor
             | |- _ /\ _ => split
             end;
      simpl; try done;
      first [ left; done
            | right; left; split; [done|lia]
            | right; right; split; [done|lia] ].
  - intros Hs. unfold _human_uptime. rewrite uptime_parts_cases. cbv zeta.
    rewrite (Z.div_small secs 86400), (Z.mod_small secs 86400) by lia.
    rewrite (Z.div_small secs 3600), (Z.mod_small secs 3600) by lia.
    rewrite (Z.div_small secs 60), (Z.mod_small secs 60) by lia.
    reflexivity.
Qed.

End Views.

(** ** The post identifier of a URL *)

Section Urls.

Variable env : oracle.

Lemma str_app_assoc a b c : (a +:+ b) +:+ c = a +:+ (b +:+ c).
Proof.
  induction a as [|x a IH]; [done|].
  change (String x ((a +:+ b) +:+ c) = String x (a +:+ (b +:+ c))).
  by rewrite IH.
Qed.

Lemma str_app_nil_r a : a +:+ "" = a.
Proof.
  induction a as [|x a IH]; [done|].
  change (String x (a +:+ "") = String x a). by rewrite IH.
Qed.

Lemma to_list_app a b : PyStr.to_list (a +:+ b) = PyStr.to_list a ++ PyStr.to_list b.
Proof.
  induction a as [|x a IH]; [done|].
  change (x :: PyStr.to_list (a +:+ b) = x :: (PyStr.to_list a ++ PyStr.to_list b)).
  by rewrite IH.
Qed.

Lemma of_list_to_list s : PyStr.of_list (PyStr.to_list s) = s.
Proof. induction s as [|x s IH]; simpl; [done|]. by rewrite IH. Qed.

Lemma to_list_of_list l : PyStr.to_list (PyStr.of_list l) = l.
Proof. induction l as [|x l IH]; simpl; [done|]. by rewrite IH. Qed.

Lemma no_slash_chars s :
  no_slash s = true -> Forall (fun c => c <> "/"%char) (PyStr.to_list s).
Proof.
  induction s as [|x s IH]; simpl; [constructor|].
  intros [Hx Hs]%andb_true_iff. constructor; [|by apply IH].
  intros ->. by rewrite Ascii.eqb_refl in Hx.
Qed.

(** Splitting a piece without separator. *)
Lemma split_acc_no_slash cur s :
  no_slash s = true -> PyStr.split_acc "/" cur s = [cur +:+ s].
Proof.
  revert cur. induction s as [|x s IH]; intros cur; simpl.
  - by rewrite str_app_nil_r.
  - intros [Hx Hs]%andb_true_iff. apply negb_true_iff in Hx. rewrite Hx.
    rewrite IH by done. by rewrite str_app_assoc.
Qed.

(** Splitting at the first separator. *)
Lemma split_acc_segment cur s t :
  no_slash s = true ->
  PyStr.split_acc "/" cur (s +:+ String "/" t)
    = (cur +:+ s) :: PyStr.split_acc "/" "" t.
Proof.
  revert cur. induction s as [|x s IH]; intros cur.
  - intros _. simpl. by rewrite str_app_nil_r.
  - simpl. intros [Hx Hs]%andb_true_iff. apply negb_true_iff in Hx.
    change (String x s +:+ String "/" t) with (String x (s +:+ String "/" t)).
    simpl. rewrite Hx, IH by done. by rewrite str_app_assoc.
Qed.

(** Joining segments and splitting the result gives the segments back. *)
Lemma split_concat segments :
  Forall (fun s => no_slash s = true) segments -> segments <> [] ->
  PyStr.split "/" (String.concat "/" segments) = segments.
Proof.
  unfold PyStr.split. intros Hall Hne.
  induction segments as [|x rest IH]; [done|].
  apply Forall_cons in Hall as [Hx Hrest].
  destruct rest as [|y rest].
  - simpl. by rewrite split_acc_no_slash.
  - change (String.concat "/" (x :: y :: rest))
      with (x +:+ String "/" (String.concat "/" (y :: rest))).
    rewrite split_acc_segment by done. simpl. f_equal. by apply IH.
Qed.

Lemma lstrip_slashes k r :
  PyStr.lstrip_chars "/" (replicate k "/"%char ++ r) = PyStr.lstrip_chars "/" r.
Proof. induction k as [|k IH]; simpl; [done|]. exact IH. Qed.

Lemma rev_replicate {A} k (x : A) : rev (replicate k x) = replicate k x.
Proof.
  induction k as [|k IH]; simpl; [done|]. rewrite IH.
  clear IH. induction k as [|k IH]; simpl; [done|]. by rewrite IH.
Qed.

Lemma to_list_concat_last init z :
  exists before,
    PyStr.to_list (String.concat "/" (init ++ [z])) = before ++ PyStr.to_list z.
Proof.
  induction init as [|x init IH].
  - by exists [].
  - destruct IH as [before Hb].
    change (String.concat "/" ((x :: init) ++ [z]))
      with (String.concat "/" (x :: init ++ [z])).
    revert Hb. destruct (init ++ [z]) as [|y rest] eqn:E; [by destruct init|].
    intros Hb.
    change (String.concat "/" (x :: y :: rest))
      with (x +:+ String "/" (String.concat "/" (y :: rest))).
    rewrite to_list_app.
    change (PyStr.to_list (String "/" (String.concat "/" (y :: rest))))
      with ("/"%char :: PyStr.to_list (String.concat "/" (y :: rest))).
    rewrite Hb.
    exists (PyStr.to_list x ++ "/"%char :: before).
    by rewrite <- app_assoc.
Qed.

(** Trailing slashes, and only they, are stripped. *)
Lemma rstrip_url segments k :
  url_segments segments ->
  PyStr.rstrip "/" (url_of segments k) = String.concat "/" segments.
Proof.
  intros (Hall & init & z & -> & Hz).
  unfold PyStr.rstrip, url_of, slashes.
  rewrite to_list_app, to_list_of_list, rev_app_distr, rev_replicate,
    lstrip_slashes.
  destruct (to_list_concat_last init z) as [before Hb]. rewrite Hb.
  rewrite rev_app_distr.
  assert (Hzc : Forall (fun c => c <> "/"%char) (rev (PyStr.to_list z))).
  { apply Forall_rev, no_slash_chars.
    apply Forall_app in Hall as [_ Hzs]. by inversion Hzs. }
  destruct (rev (PyStr.to_list z)) as [|c r] eqn:Er.
  { destruct z; [done|]. apply (f_equal (@length _)) in Er.
    rewrite length_rev in Er. done. }
  apply Forall_cons in Hzc as [Hc _]. simpl.
  destruct (Ascii.eqb_spec c "/") as [->|_]; [done|].
  change (c :: r ++ rev before) with ((c :: r) ++ rev before).
  rewrite <- Er, <- rev_app_distr, rev_involutive, <- Hb.
  apply of_list_to_list.
Qed.

Lemma segment_after_comments_found pre id post :
  "comments" ∉ pre ->
  segment_after_comments (pre ++ "comments" :: id :: post) = Some id.
Proof.
  induction pre as [|x pre IH]; intros Hnot; simpl.
  - done.
  - apply not_elem_of_cons in Hnot as [Hx Hpre].
    destruct (String.eqb_spec x "comments") as [->|_]; [done|]. by apply IH.
Qed.

Lemma segment_after_comments_absent parts :
  "comments" ∉ parts -> segment_after_comments parts = None.
Proof.
  induction parts as [|x parts IH]; intros Hnot; simpl; [done|].
  apply not_elem_of_cons in Hnot as [Hx Hp].
  destruct (String.eqb_spec x "comments") as [->|_]; [done|]. by apply IH.
Qed.

(** X15. From a URL whose segments include [comments] followed by a
    non-empty segment, with no earlier [comments] segment, the executor
    extracts that following segment as the post identifier, whatever comes
    before and after and however many slashes end the URL. *)
Theorem post_id_follows_the_comments_segment pre id post k :
  url_segments (pre ++ "comments" :: id :: post) ->
  "comments" ∉ pre -> id <> "" ->
  extract_post_id (url_of (pre ++ "comments" :: id :: post) k) = Some id.
Proof.
  intros Hseg Hnot Hid. unfold extract_post_id.
  rewrite rstrip_url by done.
  rewrite split_concat; [|by destruct Hseg|by destruct pre].
  rewrite segment_after_comments_found by done.
  simpl. by rewrite falsy_false.
Qed.

(** X16. From a URL without a [comments] segment the executor takes the
    third segment from the end as the post identifier; when the URL has
    fewer than three segments there is none, and the executor reports
    failure without sending a request. *)
Theorem post_id_falls_back_to_third_from_end segments k :
  url_segments segments -> "comments" ∉ segments ->
  extract_post_id (url_of segments k) = third_from_end segments /\
  (3 <= length segments ->
   third_from_end segments = segments !! (length segments - 3)) /\
  (length segments < 3 ->
   forall c cookies tok w,
     get_str c "url" = url_of segments k ->
     post_comment_to_reddit env c cookies tok w
       = (false, emit (EvInvoke c cookies tok) w)).
Proof.
  intros Hseg Hnot.
  assert (Hex : extract_post_id (url_of segments k) = third_from_end segments).
  { unfold extract_post_id. rewrite rstrip_url by done.
    rewrite split_concat; [|by destruct Hseg|].
    - by rewrite segment_after_comments_absent.
    - destruct Hseg as (_ & init & z & -> & _). by destruct init. }
  split; [done|]. split.
  - intros Hlen. unfold third_from_end.
    destruct (Nat.leb_spec 3 (length segments)); [done|lia].
  - intros Hlen c cookies tok w Hurl. unfold post_comment_to_reddit.
    rewrite Hurl, Hex. unfold third_from_end.
    destruct (Nat.leb_spec 3 (length segments)); [lia|].
    simpl. by destruct (_ || _).
Qed.

End Urls.

(** The post identifier of a comment URL as the site writes them. *)
Lemma post_id_follows_the_comments_segment_witness :
  extract_post_id "https://www.reddit.com/r/test/comments/abc123/a_title/"
    = Some "abc123".
Proof.
  apply (post_id_follows_the_comments_segment
           ["https:"; ""; "www.reddit.com"; "r"; "test"] "abc123" ["a_title"] 1).
  - split; [by repeat constructor|]. by exists
      ["https:"; ""; "www.reddit.com"; "r"; "test"; "comments"; "abc123"], "a_title".
  - intros H; repeat (apply elem_of_cons in H as [H|H]; [done|]).
    by apply elem_of_nil in H.
  - done.
Defined.

(** A short link has its identifier third from the end; a bare word has
    none. *)
Lemma post_id_falls_back_to_third_from_end_witness :
  extract_post_id "abc123/x/y" = Some "abc123" /\ extract_post_id "abc123" = None.
Proof.
  assert (Hnot : forall l, forallb (fun s => negb (String.eqb s "comments")) l = true ->
                           "comments" ∉ l).
  { induction l as [|x l IH]; simpl; [intros _; apply not_elem_of_nil|].
    intros [Hx Hl]%andb_true_iff. apply not_elem_of_cons. split; [|by apply IH].
    intros <-. by rewrite String.eqb_refl in Hx. }
  split.
  - refine (proj1 (post_id_falls_back_to_third_from_end flaky_env
                     ["abc123"; "x"; "y"] 0 _ _)).
    + split; [by repeat constructor|]. by exists ["abc123"; "x"], "y".
    + by apply Hnot.
  - refine (proj1 (post_id_falls_back_to_third_from_end flaky_env
                     ["abc123"] 0 _ _)).
    + split; [by repeat constructor|]. by exists [], "abc123".
    + by apply Hnot.
Defined.

(** ** The worker and the submissions *)

Section Start.

Variable env : oracle.

Lemma ensure_worker_alive st : worker_alive (_ensure_worker st) = true.
Proof.
  unfold _ensure_worker. destruct (worker_alive st) eqn:Ha; [done|].
  unfold worker_alive, spawn_worker. simpl.
  by rewrite lookup_app_r, Nat.sub_diag.
Qed.

Lemma alive_has_threads st : worker_alive st = true -> threads st <> [].
Proof.
  unfold worker_alive. destruct (worker_thread st) as [t|]; [|done].
  by destruct (threads st).
Qed.

Lemma receive_comments_threads data st w r st' w' :
  receive_comments env data st w = (r, st', w') ->
  (is_bad_request r = true /\ st' = st) \/
  (is_bad_request r = false /\ worker_alive st' = true).
Proof.
  unfold receive_comments. intros H.
  destruct (body_falsy data); [injection H as <- <- _; by left|].
  destruct (bool_decide _); [injection H as <- <- _; by left|].
  destruct (_ || _); [injection H as <- <- _; by left|].
  destruct (enqueue_all _ _ _ _) as [[ids st1] w1] eqn:E.
  injection H as <- <- _. right. split; [done|]. apply ensure_worker_alive.
Qed.

(** A step starts the first thread exactly when it is an accepted
    submission. *)
Lemma step_threads o st w :
  threads (step env o (st, w)).1 = [] <->
  threads st = [] /\ accepted env o (st, w) = false.
Proof.
  destruct o as [data|t| |]; cbn [step accepted fst snd].
  - destruct (receive_comments env data st w) as [[r st1] w1] eqn:E.
    cbn [fst snd].
    destruct (receive_comments_threads _ _ _ _ _ _ E) as [[-> ->]|[-> Hne]].
    + simpl. tauto.
    + apply alive_has_threads in Hne. simpl. split; [done|]. by intros [_ ?].
  - unfold worker_pass.
    destruct (threads st !! t) as [[f| |]|] eqn:Ht; cbn [fst]; try tauto.
    rewrite worker_loop_one.
    destruct (worker_iteration env f st w) as [[ctl st1] w1] eqn:E.
    apply worker_iteration_lifecycle in E. injection E as Hts _ _.
    cbn [fst threads set_threads]. rewrite Hts.
    apply lookup_lt_Some in Ht.
    split.
    + intros Hnil. apply (f_equal (@length _)) in Hnil.
      rewrite length_insert in Hnil. simpl in Hnil. lia.
    + intros [Hnil _]. rewrite Hnil in Ht. simpl in Ht. lia.
  - destruct (keepalive env st w) as [[[r st1] w1]|] eqn:E; cbn [fst]; [|tauto].
    apply keepalive_lifecycle in E. injection E as -> _ _. tauto.
  - simpl. tauto.
Qed.

Lemma started_by_an_accepted_submission ops :
  threads (run env ops (initial_state, initial_world)).1 <> [] <->
  exists before o after,
    ops = before ++ o :: after /\
    accepted env o (run env before (initial_state, initial_world)) = true.
Proof.
  induction ops as [|o ops IH] using rev_ind.
  - split; [done|]. intros (before & o & after & H & _). by destruct before.
  - rewrite run_snoc.
    destruct (run env ops (initial_state, initial_world)) as [st w] eqn:E.
    cbn [fst] in IH.
    pose proof (step_threads o st w) as Hs.
    split.
    + intros Hne. destruct (threads st) as [|th ths] eqn:Hts.
      * exists ops, o, []. split; [done|]. rewrite E.
        destruct (accepted env o (st, w)); [done|]. destruct Hne. by apply Hs.
      * destruct IH as [IH _]. destruct IH as (before & o' & after & -> & Ha); [done|].
        exists before, o', (after ++ [o]). split; [|done].
        by rewrite <- app_assoc.
    + intros (before & o' & after & Hops & Ha) Hnil.
      apply Hs in Hnil as [Hnil Hacc].
      destruct after as [|a after _] using rev_ind.
      * apply app_inj_tail in Hops as [-> ->]. rewrite E in Ha. congruence.
      * rewrite app_comm_cons, app_assoc in Hops.
        apply app_inj_tail in Hops as [-> ->].
        apply IH; [|done]. by exists before, o', after.
Qed.

(** X17. As long as calls do not overlap, there is never more than one
    worker alive, and the status routes report whether one is. No worker is
    started before a submission is accepted: rejected submissions,
    drain-now calls and clearing the queue never start one. Right after an
    accepted submission a worker is alive: the one that was, or a new one
    when that one has ended. No worker ever leaves its loop by the
    [break]. *)
Theorem one_worker_at_a_time ops uptime_secs :
  let sw := run env ops (initial_state, initial_world) in
  live_workers sw.1 = (if s_worker_alive (status sw.1) then 1 else 0) /\
  d_worker_alive (dashboard_status uptime_secs sw.1)
    = s_worker_alive (status sw.1) /\
  (threads sw.1 <> [] <->
   exists before o after,
     ops = before ++ o :: after /\
     accepted env o (run env before (initial_state, initial_world)) = true) /\
  (forall o,
     accepted env o sw = true ->
     s_worker_alive (status (step env o sw).1) = true) /\
  Forall (fun th => th <> Finished) (threads sw.1).
Proof.
  intros sw.
  split; [apply inv_live_workers, reachable_inv|].
  split; [done|].
  split; [apply started_by_an_accepted_submission|].
  split.
  - intros [data| | |] Hacc; try done. simpl in Hacc.
    destruct sw as [st w]. cbn [step fst snd] in *.
    destruct (receive_comments env data st w) as [[r st1] w1] eqn:E.
    cbn [fst snd] in *.
    destruct (receive_comments_threads _ _ _ _ _ _ E) as [[Hr _]|[_ Ha]];
      [by rewrite Hr in Hacc|done].
  - destruct (reachable_inv env ops)
      as [[Hn _]|(_ & earlier & th & Hts & _ & Hdead & Hth)];
      fold sw in Hn || fold sw in Hts.
    + rewrite Hn. constructor.
    + rewrite Hts. apply Forall_app. split; [|by repeat constructor].
      eapply Forall_impl; [exact Hdead|]. by intros x ->.
Qed.

End Start.
